(** * Smacker header decoding (package smk): model and properties

    Shallow embedding of [header.go] and [smk.go].

    Conventions of the model
    - a byte stream is a [list byte]; an [io.Reader] over it hands the bytes
      out in order and reports end of file when none is left;
    - Go's [int] has 32 or 64 bits, by build target: the decoder takes the
      target as a parameter; every fixed-width integer is a [Z] with its
      wrap-around written out; a call that panics is an outcome of its own;
    - [float64] is IEEE 754 binary64, taken from the standard library's
      executable specification [SpecFloat] with [prec = 53], [emax = 1024];
    - [struc.Unpack] (github.com/lunixbochs/struc) is a dependency, not part
      of the package: it is modelled from the struct tags of [FileHeader]
      and from the library's rules: a field is read with [io.ReadFull], the
      byte order is big-endian unless the tag says [little], a tag-less field
      takes the wire type of its Go type, [sizefrom=F] gives a slice the
      length held in field [F], and a field that reflection cannot set (an
      unexported one, the blank field [_] included) is left out: no byte is
      read for it.

    The decoding theorems are stated for the 64-bit target, [Int.Target64],
    unless they quantify over the target. *)

From Stdlib Require Import ZArith QArith List Bool Lia String Ascii.
From Stdlib Require Import Strings.Byte.
From Stdlib Require Import Floats.SpecFloat.
Import ListNotations.

Local Open Scope Z_scope.

(** ** Machine integers *)

Module Int.

(** Unsigned wrap-around to [w] bits. *)
Definition wrapU (w : Z) (n : Z) : Z := n mod 2 ^ w.

(** Two's complement wrap-around to [w] bits. *)
Definition wrapS (w : Z) (n : Z) : Z :=
  (n + 2 ^ (w - 1)) mod 2 ^ w - 2 ^ (w - 1).

Definition uint8 (n : Z) : Prop := 0 <= n < 2 ^ 8.
Definition uint32 (n : Z) : Prop := 0 <= n < 2 ^ 32.
Definition int32 (n : Z) : Prop := - 2 ^ 31 <= n < 2 ^ 31.

(** The build targets, by the width of Go's [int]. *)
Inductive Target : Type := Target32 | Target64.

(** Width of Go's [int] on a target. *)
Definition intSize (tg : Target) : Z :=
  match tg with
  | Target32 => 32
  | Target64 => 64
  end.

Definition u8 (b : byte) : Z := Z.of_N (Byte.to_N b).

End Int.

(** ** Errors and the reader monad *)

(** The errors that can surface from [Parse], [ParseFile] and [Close]:
    [io.EOF], [io.ErrUnexpectedEOF], the signature error built by
    [errors.Errorf] in [parseFileHeader], [os.ErrClosed], and the error of an
    [os.Open] that fails.
    [errors.WithStack] only attaches a stack trace and is the identity here. *)
Inductive error : Type :=
| EOF
| ErrUnexpectedEOF
| ErrInvalidSignature (got : string)
| ErrClosed
| ErrOpen (path : string).

(** The outcome of a call: a value, an error returned, or a panic (the call
    does not return). *)
Inductive result (A : Type) : Type :=
| Ok (a : A)
| Err (e : error)
| Panic.

Arguments Ok {A} a.
Arguments Err {A} e.
Arguments Panic {A}.

(** A computation that consumes bytes from the reader or fails. *)
Definition Unpacker (A : Type) : Type := list byte -> result (A * list byte).

Definition ret {A} (a : A) : Unpacker A := fun s => Ok (a, s).

Definition bind {A B} (m : Unpacker A) (k : A -> Unpacker B) : Unpacker B :=
  fun s => match m s with
           | Ok (a, s') => k a s'
           | Err e => Err e
           | Panic => Panic
           end.

Definition panic {A} : Unpacker A := fun _ => Panic.

Notation "x <- m ;; k" := (bind m (fun x => k))
  (at level 61, m at next level, right associativity).

(** ** The struc library *)

Module struc.

Inductive ByteOrder : Type := BigEndian | LittleEndian.

(** The wire types used by [FileHeader]. *)
Inductive Type_ : Type := Uint8 | Uint32 | Int32.

Definition Size (t : Type_) : nat :=
  match t with
  | Uint8 => 1
  | Uint32 | Int32 => 4
  end.

(** [io.ReadFull(r, buf)] with [len(buf) = n]: nothing is read for an empty
    buffer; [io.EOF] when no byte is left, [io.ErrUnexpectedEOF] when some
    but fewer than [n] are. *)
Definition readFull (n : nat) : Unpacker (list byte) :=
  fun s =>
    match n with
    | O => Ok ([], s)
    | _ => match s with
           | [] => Err EOF
           | _ => if Nat.ltb (List.length s) n then Err ErrUnexpectedEOF
                  else Ok (firstn n s, skipn n s)
           end
    end.

(** [binary.LittleEndian.Uint32] and [binary.BigEndian.Uint32]. *)
Definition Uint32of (order : ByteOrder) (buf : list byte) : Z :=
  match buf with
  | [b0; b1; b2; b3] =>
      match order with
      | LittleEndian =>
          Z.lor (Z.lor (Z.lor (Int.u8 b0) (Z.shiftl (Int.u8 b1) 8))
                       (Z.shiftl (Int.u8 b2) 16))
                (Z.shiftl (Int.u8 b3) 24)
      | BigEndian =>
          Z.lor (Z.lor (Z.lor (Int.u8 b3) (Z.shiftl (Int.u8 b2) 8))
                       (Z.shiftl (Int.u8 b1) 16))
                (Z.shiftl (Int.u8 b0) 24)
      end
  | _ => 0
  end.

(** The number a buffer of [Size t] bytes holds, as the library's
    [unpackVal] computes it before storing it. *)
Definition number (t : Type_) (order : ByteOrder) (buf : list byte) : Z :=
  match t with
  | Uint8 => match buf with b :: _ => Int.u8 b | [] => 0 end
  | Uint32 => Uint32of order buf
  | Int32 => Int.wrapS 32 (Uint32of order buf)
  end.

(** Destination kinds: [SetInt] on an [int], [SetInt] on an [int32],
    [SetUint] on a [uint32] and on a [uint8]. *)
Inductive Kind : Type := KInt | KInt32 | KUint32 | KUint8.

Definition store (tg : Int.Target) (k : Kind) (n : Z) : Z :=
  match k with
  | KInt => Int.wrapS (Int.intSize tg) n
  | KInt32 => Int.wrapS 32 n
  | KUint32 => Int.wrapU 32 n
  | KUint8 => Int.wrapU 8 n
  end.

(** Cut a buffer in pieces of [size] bytes. *)
Fixpoint chunks (size : nat) (count : nat) (buf : list byte) : list (list byte) :=
  match count with
  | O => []
  | S count' => firstn size buf :: chunks size count' (skipn size buf)
  end.

(** One scalar field. *)
Definition unpackVal (tg : Int.Target) (t : Type_) (order : ByteOrder) (k : Kind) :
  Unpacker Z :=
  buf <- readFull (Size t) ;;
  ret (store tg k (number t order buf)).

(** An array or slice field of [length] elements. The size of the field,
    [length * Size t], is computed in [int] and wraps around; a negative
    size panics when the buffer is sliced. The whole field is then read at
    once. With a [length] of 0 or less no element is unpacked. With a
    positive [length] whose size wrapped around, the slice cannot be
    allocated (or the buffer is too short for its elements) and the call
    panics; otherwise the field is unpacked element by element. *)
Definition unpackSlice (tg : Int.Target) (t : Type_) (order : ByteOrder) (k : Kind)
           (length : Z) : Unpacker (list Z) :=
  let size := Int.wrapS (Int.intSize tg) (length * Z.of_nat (Size t)) in
  if size <? 0 then panic
  else
    buf <- readFull (Z.to_nat size) ;;
    if length <=? 0 then ret []
    else if size =? length * Z.of_nat (Size t) then
      ret (map (fun c => store tg k (number t order c))
               (chunks (Size t) (Z.to_nat length) buf))
    else panic.

(** A string field tagged [[n]byte]: [val.SetString(string(buf))]. *)
Definition unpackString (len : nat) : Unpacker string :=
  buf <- readFull len ;;
  ret (string_of_list_byte buf).

(** The length a [sizefrom] field of kind [int] gives: [int(field.Int())]. *)
Definition sizefrom (n : Z) : Z := n.

End struc.

(** ** header.go *)

(** [FrameRate] is an [int32], [Flag] and [TrackInfo] are [uint32],
    [FrameType] is a [uint8]. *)
Definition FrameRate := Z.
Definition Flag := Z.
Definition TrackInfo := Z.
Definition FrameType := Z.

Record FileHeader : Type := mkFileHeader {
  Signature : string;
  Width : Z;
  Height : Z;
  NFrames : Z;
  FrameRate_ : FrameRate;
  Flags : Flag;
  AudioSize : list Z;
  TreesSize : Z;
  MMapSize : Z;
  MClrSize : Z;
  FullSize : Z;
  TypeSize : Z;
  TrackInfo_ : list TrackInfo;
  FrameSizes : list Z;
  FrameTypes : list FrameType
}.

(** [struc.Unpack(f.r, &f.FileHeader)]: the fields of [FileHeader] in
    declaration order, each with the wire type and byte order of its tag.
    [Flags] has no tag: wire type [uint32] from its Go type, big-endian.
    The blank [uint32] after [TrackInfo] cannot be set and is left out. *)
Definition Unpack (tg : Int.Target) : Unpacker FileHeader :=
  signature <- struc.unpackString 4 ;;
  width <- struc.unpackVal tg struc.Uint32 struc.LittleEndian struc.KInt ;;
  height <- struc.unpackVal tg struc.Uint32 struc.LittleEndian struc.KInt ;;
  nframes <- struc.unpackVal tg struc.Uint32 struc.LittleEndian struc.KInt ;;
  framerate <- struc.unpackVal tg struc.Int32 struc.LittleEndian struc.KInt32 ;;
  flags <- struc.unpackVal tg struc.Uint32 struc.BigEndian struc.KUint32 ;;
  audiosize <- struc.unpackSlice tg struc.Uint32 struc.LittleEndian struc.KInt 7 ;;
  treessize <- struc.unpackVal tg struc.Uint32 struc.LittleEndian struc.KInt ;;
  mmapsize <- struc.unpackVal tg struc.Uint32 struc.LittleEndian struc.KInt ;;
  mclrsize <- struc.unpackVal tg struc.Uint32 struc.LittleEndian struc.KInt ;;
  fullsize <- struc.unpackVal tg struc.Uint32 struc.LittleEndian struc.KInt ;;
  typesize <- struc.unpackVal tg struc.Uint32 struc.LittleEndian struc.KInt ;;
  trackinfo <- struc.unpackSlice tg struc.Uint32 struc.LittleEndian struc.KUint32 7 ;;
  framesizes <- struc.unpackSlice tg struc.Uint32 struc.LittleEndian struc.KInt
                  (struc.sizefrom nframes) ;;
  frametypes <- struc.unpackSlice tg struc.Uint8 struc.BigEndian struc.KUint8
                  (struc.sizefrom nframes) ;;
  ret (mkFileHeader signature width height nframes framerate flags audiosize
         treessize mmapsize mclrsize fullsize typesize trackinfo
         framesizes frametypes).

(** The signature switch of [parseFileHeader]. *)
Definition validSignature (s : string) : bool :=
  String.eqb s "SMK2" || String.eqb s "SMK4".

(** [parseFileHeader]: unpack, then verify the signature. *)
Definition parseFileHeader (tg : Int.Target) : Unpacker FileHeader :=
  h <- Unpack tg ;;
  if validSignature (Signature h) then ret h
  else fun _ => Err (ErrInvalidSignature (Signature h)).

(** [float64] arithmetic. *)
Definition float64 : Type := spec_float.

Definition float64_prec : Z := 53.
Definition float64_emax : Z := 1024.

(** Conversion of an integer (or of an untyped integer constant) to
    [float64], rounding to nearest even. *)
Definition float64_of_int (n : Z) : float64 := binary_normalize float64_prec float64_emax n 0 false.

Definition float64_div (x y : float64) : float64 := SFdiv float64_prec float64_emax x y.

(** [FPS]: the negation in the second case is done on the [int32] before the
    conversion to [float64]. *)
Definition FPS (rate : FrameRate) : float64 :=
  if 0 <? rate then
    float64_div (float64_of_int 1000) (float64_of_int rate)
  else if rate <? 0 then
    float64_div (float64_of_int 100000) (float64_of_int (Int.wrapS 32 (- rate)))
  else
    float64_of_int 10.

(** Conversion of a [uint32] to [int]. *)
Definition int_of_uint32 (tg : Int.Target) (n : Z) : Z :=
  Int.wrapS (Int.intSize tg) n.

Definition SampleRate (tg : Int.Target) (info : TrackInfo) : Z :=
  int_of_uint32 tg (Z.land info 0xFFFFFF).

Definition BitRate (info : TrackInfo) : Z :=
  if negb (Z.land info 0x20000000 =? 0) then 16 else 8.

Definition NChannels (info : TrackInfo) : Z :=
  if negb (Z.land info 0x10000000 =? 0) then 2 else 1.

Definition HasAudioData (info : TrackInfo) : bool :=
  negb (Z.land info 0x40000000 =? 0).

Definition IsCompressed (info : TrackInfo) : bool :=
  negb (Z.land info 0x80000000 =? 0).

Definition IsVersion2 (info : TrackInfo) : bool :=
  Z.land info 0xC000000 =? 0.

(** The frame type constants: [1 << iota] as a [uint8], [iota] counting the
    lines of the constant block from 0. *)
Definition frameTypeConst (iota : Z) : FrameType := Int.wrapU 8 (Z.shiftl 1 iota).

Definition FrameTypePaletteRecord : FrameType := frameTypeConst 0.
Definition FrameTypeAudioDataTrack0 : FrameType := frameTypeConst 1.
Definition FrameTypeAudioDataTrack1 : FrameType := frameTypeConst 2.
Definition FrameTypeAudioDataTrack2 : FrameType := frameTypeConst 3.
Definition FrameTypeAudioDataTrack3 : FrameType := frameTypeConst 4.
Definition FrameTypeAudioDataTrack4 : FrameType := frameTypeConst 5.
Definition FrameTypeAudioDataTrack5 : FrameType := frameTypeConst 6.
Definition FrameTypeAudioDataTrack6 : FrameType := frameTypeConst 7.

Definition frameTypeConsts : list FrameType :=
  [ FrameTypePaletteRecord;
    FrameTypeAudioDataTrack0; FrameTypeAudioDataTrack1;
    FrameTypeAudioDataTrack2; FrameTypeAudioDataTrack3;
    FrameTypeAudioDataTrack4; FrameTypeAudioDataTrack5;
    FrameTypeAudioDataTrack6 ].

(** The content a frame type carries, by the doc comment of [FrameType]: a
    constant is set in [t] when [t & c != 0]. *)
Definition hasFlag (t c : FrameType) : bool := negb (Z.land t c =? 0).

Definition flagsSet (t : FrameType) : list FrameType :=
  filter (hasFlag t) frameTypeConsts.

(** ** smk.go *)

(** An [io.Closer]: an object with a state of its own whose [Close] changes
    the state and returns an error or [nil]. *)
Record Closer : Type := mkCloser {
  CloserState : Type;
  closerState : CloserState;
  closerClose : CloserState -> CloserState * option error
}.

(** Calling [Close] on a closer. *)
Definition callClose (c : Closer) : Closer * option error :=
  let (st, e) := closerClose c (closerState c) in
  (mkCloser (CloserState c) st (closerClose c), e).

(** An [*os.File] as a closer: the first [Close] succeeds, every later one
    returns [os.ErrClosed]. *)
Definition osFile : Closer :=
  mkCloser bool false (fun closed => (true, if closed then Some ErrClosed else None)).

(** An [io.Reader] given to [Parse]: the bytes it delivers and, when its
    dynamic type implements [io.Closer], that closer. *)
Record Reader : Type := mkReader {
  readerBytes : list byte;
  readerCloser : option Closer
}.

Record File : Type := mkFile {
  Header : FileHeader;
  r : list byte;
  c : option Closer
}.

Definition Parse (tg : Int.Target) (rd : Reader) : result File :=
  match parseFileHeader tg (readerBytes rd) with
  | Ok (h, rest) => Ok (mkFile h rest (readerCloser rd))
  | Err e => Err e
  | Panic => Panic
  end.

(** The files [os.Open] can open, by path, with their contents. *)
Definition FileSystem : Type := string -> option (list byte).

(** [ParseFile]: [os.Open] gives an [*os.File], which is an [io.Closer]. *)
Definition ParseFile (tg : Int.Target) (fs : FileSystem) (path : string) :
  result File :=
  match fs path with
  | None => Err (ErrOpen path)
  | Some bytes => Parse tg (mkReader bytes (Some osFile))
  end.

(** [Close]: the file after the call and the error returned. *)
Definition Close (f : File) : File * option error :=
  match c f with
  | Some cl =>
      let (cl', e) := callClose cl in
      (mkFile (Header f) (r f) (Some cl'), e)
  | None => (f, None)
  end.

(** ** Encoders

    The byte layouts used to state the decoding properties. *)

Definition byte_of_Z (n : Z) : byte :=
  match Byte.of_N (Z.to_N (n mod 256)) with
  | Some b => b
  | None => x00
  end.

(** The four bytes of a 32-bit value, least significant first. *)
Definition le32 (n : Z) : list byte :=
  [ byte_of_Z n; byte_of_Z (Z.shiftr n 8);
    byte_of_Z (Z.shiftr n 16); byte_of_Z (Z.shiftr n 24) ].

(** The four bytes of a 32-bit value, most significant first. *)
Definition be32 (n : Z) : list byte := rev (le32 n).

(** The layout of section 4.2 of the specification, in its words: the
    signature bytes, then little-endian 32-bit values for [width], [height],
    [frame_count], [frame_rate_raw], [flags], the 7 buffer sizes, the five
    size hints and the 7 track descriptors, 4 bytes of padding, then
    [frame_count] 32-bit frame sizes and [frame_count] 8-bit frame types. *)
Definition encodeLayout (h : FileHeader) (padding : Z) : list byte :=
  list_byte_of_string (Signature h)
  ++ le32 (Width h) ++ le32 (Height h) ++ le32 (NFrames h)
  ++ le32 (FrameRate_ h) ++ le32 (Flags h)
  ++ List.concat (map le32 (AudioSize h))
  ++ le32 (TreesSize h) ++ le32 (MMapSize h) ++ le32 (MClrSize h)
  ++ le32 (FullSize h) ++ le32 (TypeSize h)
  ++ List.concat (map le32 (TrackInfo_ h))
  ++ le32 padding
  ++ List.concat (map le32 (FrameSizes h))
  ++ map byte_of_Z (FrameTypes h).

(** The layout [Unpack] reads: as above, with [Flags] most significant byte
    first and no padding. *)
Definition encodeRead (h : FileHeader) : list byte :=
  list_byte_of_string (Signature h)
  ++ le32 (Width h) ++ le32 (Height h) ++ le32 (NFrames h)
  ++ le32 (FrameRate_ h) ++ be32 (Flags h)
  ++ List.concat (map le32 (AudioSize h))
  ++ le32 (TreesSize h) ++ le32 (MMapSize h) ++ le32 (MClrSize h)
  ++ le32 (FullSize h) ++ le32 (TypeSize h)
  ++ List.concat (map le32 (TrackInfo_ h))
  ++ List.concat (map le32 (FrameSizes h))
  ++ map byte_of_Z (FrameTypes h).

(** The decoder of section 4.2 of the specification, in its words: the
    fields in layout order, every multi-byte integer little-endian, the 4
    bytes of padding read and discarded, on the 64-bit target. It differs
    from [Unpack] in the byte order of [flags] and in the padding. *)
Definition decodeLayout : Unpacker FileHeader :=
  signature <- struc.unpackString 4 ;;
  width <- struc.unpackVal Int.Target64 struc.Uint32 struc.LittleEndian struc.KInt ;;
  height <- struc.unpackVal Int.Target64 struc.Uint32 struc.LittleEndian struc.KInt ;;
  nframes <- struc.unpackVal Int.Target64 struc.Uint32 struc.LittleEndian struc.KInt ;;
  framerate <- struc.unpackVal Int.Target64 struc.Int32 struc.LittleEndian struc.KInt32 ;;
  flags <- struc.unpackVal Int.Target64 struc.Uint32 struc.LittleEndian struc.KUint32 ;;
  audiosize <- struc.unpackSlice Int.Target64 struc.Uint32 struc.LittleEndian struc.KInt 7 ;;
  treessize <- struc.unpackVal Int.Target64 struc.Uint32 struc.LittleEndian struc.KInt ;;
  mmapsize <- struc.unpackVal Int.Target64 struc.Uint32 struc.LittleEndian struc.KInt ;;
  mclrsize <- struc.unpackVal Int.Target64 struc.Uint32 struc.LittleEndian struc.KInt ;;
  fullsize <- struc.unpackVal Int.Target64 struc.Uint32 struc.LittleEndian struc.KInt ;;
  typesize <- struc.unpackVal Int.Target64 struc.Uint32 struc.LittleEndian struc.KInt ;;
  trackinfo <- struc.unpackSlice Int.Target64 struc.Uint32 struc.LittleEndian struc.KUint32 7 ;;
  padding <- struc.unpackVal Int.Target64 struc.Uint32 struc.LittleEndian struc.KUint32 ;;
  framesizes <- struc.unpackSlice Int.Target64 struc.Uint32 struc.LittleEndian struc.KInt
                  (struc.sizefrom nframes) ;;
  frametypes <- struc.unpackSlice Int.Target64 struc.Uint8 struc.BigEndian struc.KUint8
                  (struc.sizefrom nframes) ;;
  ret (mkFileHeader signature width height nframes framerate flags audiosize
         treessize mmapsize mclrsize fullsize typesize trackinfo
         framesizes frametypes).

(** A header is well formed when every field fits its type and the lengths
    of the arrays are the ones the layout prescribes. *)
Definition wellFormed (h : FileHeader) : Prop :=
  String.length (Signature h) = 4%nat
  /\ Int.uint32 (Width h) /\ Int.uint32 (Height h) /\ Int.uint32 (NFrames h)
  /\ Int.int32 (FrameRate_ h) /\ Int.uint32 (Flags h)
  /\ List.length (AudioSize h) = 7%nat /\ Forall Int.uint32 (AudioSize h)
  /\ Int.uint32 (TreesSize h) /\ Int.uint32 (MMapSize h)
  /\ Int.uint32 (MClrSize h) /\ Int.uint32 (FullSize h)
  /\ Int.uint32 (TypeSize h)
  /\ List.length (TrackInfo_ h) = 7%nat /\ Forall Int.uint32 (TrackInfo_ h)
  /\ Z.of_nat (List.length (FrameSizes h)) = NFrames h
  /\ Forall Int.uint32 (FrameSizes h)
  /\ Z.of_nat (List.length (FrameTypes h)) = NFrames h
  /\ Forall Int.uint8 (FrameTypes h).

(** ** Derived notions used in the statements *)

(** The two end-of-input errors of [io.ReadFull]. *)
Definition truncation (e : error) : Prop := e = EOF \/ e = ErrUnexpectedEOF.

(** The frame count a stream holds: the little-endian 32-bit value at byte
    offset 12, as [Unpack] stores it in [NFrames] on the 64-bit target. *)
Definition frameCount (s : list byte) : Z :=
  struc.store Int.Target64 struc.KInt
    (struc.number struc.Uint32 struc.LittleEndian (firstn 4 (skipn 12 s))).

(** The signature a stream holds: its first four bytes. *)
Definition signatureOf (s : list byte) : string :=
  string_of_list_byte (firstn 4 s).

(** Number of bytes [Unpack] reads for [n] frames: 100 for the fixed fields,
    4 per frame size and 1 per frame type. *)
Definition bytesRead (n : Z) : nat := 100 + (Z.to_nat n * 4 + Z.to_nat n * 1).

(** Number of bytes the layout of section 4.2 has for [n] frames: the
    bytes read plus the 4 bytes of padding. *)
Definition layoutSize (n : Z) : nat := 4 + bytesRead n.

(** A slice field of [len] elements whose size does not wrap around: the
    whole field is read at once and cut in elements. *)
Definition readSlice (tg : Int.Target) (t : struc.Type_) (order : struc.ByteOrder)
           (k : struc.Kind) (len : nat) : Unpacker (list Z) :=
  buf <- struc.readFull (len * struc.Size t) ;;
  ret (map (fun c => struc.store tg k (struc.number t order c))
           (struc.chunks (struc.Size t) len buf)).

(** A slice length whose field size fits [int] on the target. *)
Definition fits (tg : Int.Target) (t : struc.Type_) (length : Z) : Prop :=
  0 <= length /\ length * Z.of_nat (struc.Size t) < 2 ^ (Int.intSize tg - 1).

(** [m], run at offset [off] of [s], reads [n] bytes and returns [a]; it
    fails with a truncation error when fewer than [n] bytes are left. *)
Definition reads {A} (m : Unpacker A) (s : list byte) (off n : nat) (a : A) : Prop :=
  (off + n <= List.length s -> m (skipn off s) = Ok (a, skipn (off + n) s))%nat
  /\ (List.length s < off + n -> off <= List.length s ->
      exists e, m (skipn off s) = Err e /\ truncation e)%nat.

(** The rational a [float64] stands for, in lowest terms; none for an
    infinity or a NaN. *)
Definition float64_value (x : float64) : option Q :=
  match x with
  | S754_zero _ => Some (0 # 1)%Q
  | S754_finite s m e =>
      Some (Qred (inject_Z (if s then Zneg m else Zpos m) * Qpower (2 # 1) e)%Q)
  | _ => None
  end.

(** The sign bit of a [float64]; a NaN counts as unsigned. *)
Definition float64_signbit (x : float64) : bool :=
  match x with
  | S754_zero s | S754_infinity s | S754_finite s _ _ => s
  | S754_nan => false
  end.

(** The smallest [int32]. *)
Definition minInt32 : Z := - 2 ^ 31.

(** Two descriptors agree outside bits 25-24. *)
Definition agreeOutsideUnused (u v : TrackInfo) : Prop :=
  forall i : Z, 0 <= i -> i <> 24 -> i <> 25 -> Z.testbit u i = Z.testbit v i.

(** Every field the layout holds as an unsigned 32-bit value is, in its
    [int], at least 0 and below 2^32. *)
Definition uint32Fields (h : FileHeader) : Prop :=
  0 <= Width h < 2 ^ 32
  /\ 0 <= Height h < 2 ^ 32
  /\ 0 <= NFrames h < 2 ^ 32
  /\ (List.length (AudioSize h) = 7%nat
      /\ forall x, In x (AudioSize h) -> 0 <= x < 2 ^ 32)
  /\ 0 <= TreesSize h < 2 ^ 32
  /\ 0 <= MMapSize h < 2 ^ 32
  /\ 0 <= MClrSize h < 2 ^ 32
  /\ 0 <= FullSize h < 2 ^ 32
  /\ 0 <= TypeSize h < 2 ^ 32
  /\ forall x, In x (FrameSizes h) -> 0 <= x < 2 ^ 32.

(** [n] successive calls of [Close]: the file after the last call and the
    errors returned, in call order. *)
Fixpoint closeN (n : nat) (f : File) : File * list (option error) :=
  match n with
  | O => (f, [])
  | S n' => let (f', e) := Close f in
            let (f'', es) := closeN n' f' in
            (f'', e :: es)
  end.

(** The facts that hold of every header [Unpack] builds. *)
Record decodedInv (h : FileHeader) : Prop := {
  inv_Width : Int.uint32 (Width h);
  inv_Height : Int.uint32 (Height h);
  inv_NFrames : Int.uint32 (NFrames h);
  inv_FrameRate : Int.int32 (FrameRate_ h);
  inv_Flags : Int.uint32 (Flags h);
  inv_AudioSize : Forall Int.uint32 (AudioSize h);
  inv_AudioSize_len : List.length (AudioSize h) = 7%nat;
  inv_TreesSize : Int.uint32 (TreesSize h);
  inv_MMapSize : Int.uint32 (MMapSize h);
  inv_MClrSize : Int.uint32 (MClrSize h);
  inv_FullSize : Int.uint32 (FullSize h);
  inv_TypeSize : Int.uint32 (TypeSize h);
  inv_TrackInfo : Forall Int.uint32 (TrackInfo_ h);
  inv_TrackInfo_len : List.length (TrackInfo_ h) = 7%nat;
  inv_FrameSizes : Forall Int.uint32 (FrameSizes h);
  inv_FrameSizes_len : List.length (FrameSizes h) = Z.to_nat (NFrames h);
  inv_FrameTypes : Forall Int.uint8 (FrameTypes h);
  inv_FrameTypes_len : List.length (FrameTypes h) = Z.to_nat (NFrames h)
}.

(** ** Sample inputs *)

Definition sampleHeader : FileHeader :=
  mkFileHeader "SMK2" 320 200 1 (-100000) 1 [1; 2; 3; 4; 5; 6; 7]
    10 11 12 13 14 [0xC0000000; 0x3000FFFF; 0; 0; 0; 0; 0] [5] [1].

(** A stream in the layout [Unpack] reads, and the file parsed from it. *)
Definition sampleReader : Reader := mkReader (encodeRead sampleHeader) None.
Definition sampleFile : File := mkFile sampleHeader [] None.

(** The same header in the layout of section 4.2, with zero padding. *)
Definition layoutReader : Reader := mkReader (encodeLayout sampleHeader 0) None.



(** A valid signature followed by 96 zero bytes: the fixed fields of a
    header with no frame, without the padding. *)
Definition noPaddingReader : Reader :=
  mkReader (list_byte_of_string "SMK2" ++ repeat x00 96) None.

(** A valid signature, a width of 0xFFFFFFFF and 92 zero bytes: a header
    with no frame. *)
Definition wideReader : Reader :=
  mkReader (list_byte_of_string "SMK2" ++ [xff; xff; xff; xff] ++ repeat x00 92)
           None.

(** A file system with one file, [sample.smk]. *)
Definition sampleFS : FileSystem :=
  fun path => if String.eqb path "sample.smk" then Some (encodeRead sampleHeader)
              else None.

(** ** Notions used in the further properties *)

(** The number a slice element holds on the 64-bit target: element [i] of a
    field of wire type [t] that starts at byte offset [off]. *)
Definition elementAt (t : struc.Type_) (order : struc.ByteOrder) (k : struc.Kind)
           (s : list byte) (off i : nat) : Z :=
  struc.store Int.Target64 k
    (struc.number t order
       (firstn (struc.Size t) (skipn (off + i * struc.Size t) s))).

(** A scalar field at byte offset [off]. *)
Definition scalarAt (t : struc.Type_) (order : struc.ByteOrder) (k : struc.Kind)
           (s : list byte) (off : nat) : Z :=
  elementAt t order k s off 0.

(** A slice field of [len] elements at byte offset [off]. *)
Definition sliceAt (t : struc.Type_) (order : struc.ByteOrder) (k : struc.Kind)
           (s : list byte) (off len : nat) : list Z :=
  map (fun i => elementAt t order k s off i) (seq 0 len).

(** The header a stream holds, field by field at fixed byte offsets. *)
Definition decodeAt (s : list byte) : FileHeader :=
  let n := Z.to_nat (frameCount s) in
  mkFileHeader
    (signatureOf s)
    (scalarAt struc.Uint32 struc.LittleEndian struc.KInt s 4)
    (scalarAt struc.Uint32 struc.LittleEndian struc.KInt s 8)
    (scalarAt struc.Uint32 struc.LittleEndian struc.KInt s 12)
    (scalarAt struc.Int32 struc.LittleEndian struc.KInt32 s 16)
    (scalarAt struc.Uint32 struc.BigEndian struc.KUint32 s 20)
    (sliceAt struc.Uint32 struc.LittleEndian struc.KInt s 24 7)
    (scalarAt struc.Uint32 struc.LittleEndian struc.KInt s 52)
    (scalarAt struc.Uint32 struc.LittleEndian struc.KInt s 56)
    (scalarAt struc.Uint32 struc.LittleEndian struc.KInt s 60)
    (scalarAt struc.Uint32 struc.LittleEndian struc.KInt s 64)
    (scalarAt struc.Uint32 struc.LittleEndian struc.KInt s 68)
    (sliceAt struc.Uint32 struc.LittleEndian struc.KUint32 s 72 7)
    (sliceAt struc.Uint32 struc.LittleEndian struc.KInt s 100 n)
    (sliceAt struc.Uint8 struc.BigEndian struc.KUint8 s (100 + n * 4) n).

(** A computation is stable when bytes added after the stream do not
    change what it returns, and are left in the reader. *)
Definition stable {A} (m : Unpacker A) : Prop :=
  forall (s t : list byte) (a : A) (rest : list byte),
    m s = Ok (a, rest) -> m (s ++ t) = Ok (a, rest ++ t).

(** A descriptor put together from its parts, by the bit table in the doc
    comment of [TrackInfo]. *)
Definition trackInfoOf (compressed audio sixteen stereo : bool) (rate : Z) : TrackInfo :=
  Z.lor (Z.lor (Z.lor (Z.lor (Z.shiftl (Z.b2z compressed) 31)
                             (Z.shiftl (Z.b2z audio) 30))
                      (Z.shiftl (Z.b2z sixteen) 29))
               (Z.shiftl (Z.b2z stereo) 28))
        rate.

(** The bitwise or of a list of frame types. *)
Definition orAll (l : list FrameType) : FrameType := fold_right Z.lor 0 l.

Definition float64_isNaN (x : float64) : bool :=
  match x with
  | S754_nan => true
  | _ => false
  end.

(** [n] successive calls of [Close] on a closer: the closer after the last
    call and the errors returned, in call order. *)
Fixpoint callCloseN (n : nat) (cl : Closer) : Closer * list (option error) :=
  match n with
  | O => (cl, [])
  | S n' => let (cl', e) := callClose cl in
            let (cl'', es) := callCloseN n' cl' in
            (cl'', e :: es)
  end.

(** ** Machine integer lemmas *)

Lemma u8_range (b : byte) : 0 <= Int.u8 b < 256.
Proof.
  unfold Int.u8. pose proof (Byte.to_N_bounded b) as H.
  split; [apply N2Z.is_nonneg | ].
  apply N2Z.inj_le in H. change (Z.of_N 255) with 255 in H. lia.
Qed.

Lemma lor_range (n a b : Z) :
  0 <= n -> 0 <= a < 2 ^ n -> 0 <= b < 2 ^ n -> 0 <= Z.lor a b < 2 ^ n.
Proof.
  intros Hn [Ha0 Ha] [Hb0 Hb].
  assert (H0 : 0 <= Z.lor a b) by (apply Z.lor_nonneg; auto).
  split; [exact H0 | ].
  destruct (Z.eq_dec (Z.lor a b) 0) as [E | E].
  - rewrite E. apply Z.pow_pos_nonneg; lia.
  - assert (Hpos : 0 < n).
    { destruct (Z.eq_dec n 0) as [-> | ]; [ | lia].
      change (2 ^ 0) with 1 in *.
      assert (a = 0) by lia. assert (b = 0) by lia. subst. contradiction. }
    apply Z.log2_lt_pow2; [lia | ].
    rewrite Z.log2_lor by assumption.
    apply Z.max_lub_lt.
    + destruct (Z.eq_dec a 0) as [-> | Na]; [simpl; lia | ].
      apply Z.log2_lt_pow2; lia.
    + destruct (Z.eq_dec b 0) as [-> | Nb]; [simpl; lia | ].
      apply Z.log2_lt_pow2; lia.
Qed.

Lemma shiftl_u8_range (b : byte) (k : Z) :
  0 <= k <= 24 -> 0 <= Z.shiftl (Int.u8 b) k < 2 ^ 32.
Proof.
  intros Hk. pose proof (u8_range b) as Hb.
  rewrite Z.shiftl_mul_pow2 by lia.
  assert (Hp : 0 < 2 ^ k) by (apply Z.pow_pos_nonneg; lia).
  split; [apply Z.mul_nonneg_nonneg; lia | ].
  assert (Hle : 2 ^ k <= 2 ^ 24) by (apply Z.pow_le_mono_r; lia).
  apply Z.le_lt_trans with (255 * 2 ^ 24); [ | reflexivity].
  apply Z.mul_le_mono_nonneg; lia.
Qed.

Lemma Uint32of_range (order : struc.ByteOrder) (buf : list byte) :
  Int.uint32 (struc.Uint32of order buf).
Proof.
  unfold Int.uint32, struc.Uint32of.
  destruct buf as [ | b0 [ | b1 [ | b2 [ | b3 [ | ? ?]]]]];
    try (split; [lia | reflexivity]).
  assert (H0 : forall b, 0 <= Int.u8 b < 2 ^ 32).
  { intros b. pose proof (u8_range b). change (2 ^ 32) with 4294967296. lia. }
  destruct order; repeat apply lor_range; try lia; auto;
    apply shiftl_u8_range; lia.
Qed.

Lemma wrapS_small (w n : Z) :
  0 < w -> - 2 ^ (w - 1) <= n < 2 ^ (w - 1) -> Int.wrapS w n = n.
Proof.
  intros Hw Hn. unfold Int.wrapS.
  assert (E : 2 ^ w = 2 * 2 ^ (w - 1)).
  { replace w with (Z.succ (w - 1)) at 1 by lia. apply Z.pow_succ_r. lia. }
  rewrite Z.mod_small by lia. lia.
Qed.

Lemma wrapS_range (w n : Z) :
  0 < w -> - 2 ^ (w - 1) <= Int.wrapS w n < 2 ^ (w - 1).
Proof.
  intros Hw. unfold Int.wrapS.
  assert (E : 2 ^ w = 2 * 2 ^ (w - 1)).
  { replace w with (Z.succ (w - 1)) at 1 by lia. apply Z.pow_succ_r. lia. }
  assert (P : 0 < 2 ^ w) by (apply Z.pow_pos_nonneg; lia).
  pose proof (Z.mod_pos_bound (n + 2 ^ (w - 1)) (2 ^ w) P). lia.
Qed.

Lemma int_of_uint32_id (n : Z) :
  Int.uint32 n -> int_of_uint32 Int.Target64 n = n.
Proof.
  unfold Int.uint32, int_of_uint32, Int.intSize. intros H.
  apply wrapS_small; [lia | ].
  change (2 ^ (64 - 1)) with 9223372036854775808.
  change (2 ^ 32) with 4294967296 in H. lia.
Qed.

(** A value below 2^31 is kept by the conversion on either target. *)
Lemma int_of_uint32_small (tg : Int.Target) (n : Z) :
  0 <= n < 2 ^ 31 -> int_of_uint32 tg n = n.
Proof.
  unfold int_of_uint32. intros H.
  change (2 ^ 31) with 2147483648 in H.
  destruct tg; cbn [Int.intSize]; (apply wrapS_small; [lia | ]).
  - change (2 ^ (32 - 1)) with 2147483648. lia.
  - change (2 ^ (64 - 1)) with 9223372036854775808. lia.
Qed.

(** What [Unpack] stores in an [int] field tagged [uint32]. *)
Lemma store_int_uint32 (order : struc.ByteOrder) (buf : list byte) :
  Int.uint32 (struc.store Int.Target64 struc.KInt
                (struc.number struc.Uint32 order buf)).
Proof.
  cbn [struc.store struc.number]. pose proof (Uint32of_range order buf) as H.
  fold (int_of_uint32 Int.Target64 (struc.Uint32of order buf)).
  rewrite int_of_uint32_id; assumption.
Qed.

Lemma store_uint32_uint32 (tg : Int.Target) (order : struc.ByteOrder)
      (buf : list byte) :
  Int.uint32 (struc.store tg struc.KUint32 (struc.number struc.Uint32 order buf)).
Proof.
  simpl. pose proof (Uint32of_range order buf) as H.
  unfold Int.wrapU. unfold Int.uint32 in *. rewrite Z.mod_small; assumption.
Qed.

Lemma store_int32_int32 (tg : Int.Target) (order : struc.ByteOrder)
      (buf : list byte) :
  Int.int32 (struc.store tg struc.KInt32 (struc.number struc.Int32 order buf)).
Proof.
  simpl. unfold Int.int32. change (2 ^ 31) with (2 ^ (32 - 1)).
  apply wrapS_range. lia.
Qed.

Lemma store_uint8_uint8 (tg : Int.Target) (order : struc.ByteOrder)
      (buf : list byte) :
  Int.uint8 (struc.store tg struc.KUint8 (struc.number struc.Uint8 order buf)).
Proof.
  simpl. unfold Int.wrapU, Int.uint8. apply Z.mod_pos_bound. reflexivity.
Qed.

(** ** The reader monad: how many bytes a computation reads *)

Lemma reads_ret {A} (a : A) (s : list byte) (off : nat) : reads (ret a) s off 0 a.
Proof.
  unfold reads, ret. rewrite Nat.add_0_r. split; [reflexivity | lia].
Qed.

Section Reads.

Context {A B : Type}.

Lemma reads_bind (m : Unpacker A) (k : A -> Unpacker B) (s : list byte)
      (off n n' : nat) (a : A) (b : B) :
  reads m s off n a ->
  reads (k a) s (off + n) n' b ->
  reads (bind m k) s off (n + n') b.
Proof.
  intros [Hm Hme] [Hk Hke]. unfold reads, bind. split.
  - intros Hlen. rewrite Hm by lia. rewrite Hk by lia.
    rewrite Nat.add_assoc. reflexivity.
  - intros Hlen Hoff.
    destruct (Nat.lt_ge_cases (List.length s) (off + n)) as [Hlt | Hge].
    + destruct (Hme Hlt Hoff) as [e [-> He]]. exists e. auto.
    + rewrite Hm by assumption. apply Hke; lia.
Qed.

Lemma reads_map (m : Unpacker A) (f : A -> B) (s : list byte)
      (off n : nat) (a : A) :
  reads m s off n a ->
  reads (bind m (fun x => ret (f x))) s off n (f a).
Proof.
  intros H. rewrite <- (Nat.add_0_r n).
  eapply reads_bind; [exact H | apply reads_ret].
Qed.

End Reads.

Lemma reads_readFull (n : nat) (s : list byte) (off : nat) :
  reads (struc.readFull n) s off n (firstn n (skipn off s)).
Proof.
  unfold reads, struc.readFull. split.
  - intros Hlen. destruct n as [ | n'].
    + rewrite Nat.add_0_r. reflexivity.
    + remember (S n') as n eqn:En.
      assert (Hl : (n <= List.length (skipn off s))%nat)
        by (rewrite List.length_skipn; lia).
      destruct (skipn off s) as [ | x t] eqn:Es; [simpl in Hl; lia | ].
      apply Nat.ltb_ge in Hl. rewrite Hl.
      rewrite <- Es, List.skipn_skipn, (Nat.add_comm n off). reflexivity.
  - intros Hlen Hoff. destruct n as [ | n']; [lia | ].
    remember (S n') as n eqn:En.
    assert (Hl : (List.length (skipn off s) < n)%nat)
      by (rewrite List.length_skipn; lia).
    destruct (skipn off s) as [ | x t] eqn:Es.
    + exists EOF. split; [reflexivity | left; reflexivity].
    + apply Nat.ltb_lt in Hl. rewrite Hl.
      exists ErrUnexpectedEOF. split; [reflexivity | right; reflexivity].
Qed.

Lemma reads_unpackVal (tg : Int.Target) (t : struc.Type_) (o : struc.ByteOrder)
      (k : struc.Kind) (s : list byte) (off : nat) :
  reads (struc.unpackVal tg t o k) s off (struc.Size t)
        (struc.store tg k
           (struc.number t o (firstn (struc.Size t) (skipn off s)))).
Proof.
  unfold struc.unpackVal.
  apply (reads_map (struc.readFull _)
                   (fun buf => struc.store tg k (struc.number t o buf))),
    reads_readFull.
Qed.

Lemma reads_readSlice (tg : Int.Target) (t : struc.Type_) (o : struc.ByteOrder)
      (k : struc.Kind) (len : nat) (s : list byte) (off : nat) :
  reads (readSlice tg t o k len) s off (len * struc.Size t)
        (map (fun c => struc.store tg k (struc.number t o c))
             (struc.chunks (struc.Size t) len
                (firstn (len * struc.Size t) (skipn off s)))).
Proof.
  unfold readSlice.
  apply (reads_map (struc.readFull _)
           (fun buf => map (fun c => struc.store tg k (struc.number t o c))
                           (struc.chunks (struc.Size t) len buf))),
    reads_readFull.
Qed.

(** A slice whose size fits [int] is read without wrap-around or panic. *)
Lemma unpackSlice_readSlice (tg : Int.Target) (t : struc.Type_)
      (o : struc.ByteOrder) (k : struc.Kind) (length : Z) (s : list byte) :
  fits tg t length ->
  struc.unpackSlice tg t o k length s = readSlice tg t o k (Z.to_nat length) s.
Proof.
  intros [H0 H1]. unfold struc.unpackSlice, readSlice.
  assert (Hw : 0 < Int.intSize tg) by (destruct tg; reflexivity).
  assert (Hp : 0 < 2 ^ (Int.intSize tg - 1))
    by (apply Z.pow_pos_nonneg; destruct tg; cbn [Int.intSize]; lia).
  assert (Hs : 0 <= length * Z.of_nat (struc.Size t))
    by (apply Z.mul_nonneg_nonneg; lia).
  rewrite wrapS_small by (auto; lia).
  destruct (Z.ltb_spec (length * Z.of_nat (struc.Size t)) 0) as [Hn | _];
    [lia | ].
  rewrite Z2Nat.inj_mul, Nat2Z.id by lia.
  unfold bind. destruct (struc.readFull _ s) as [[buf s'] | e | ]; try reflexivity.
  rewrite Z.eqb_refl.
  destruct (Z.leb_spec length 0) as [Hle | Hgt]; [ | reflexivity].
  replace length with 0 by lia. reflexivity.
Qed.

Lemma reads_unpackSlice (tg : Int.Target) (t : struc.Type_) (o : struc.ByteOrder)
      (k : struc.Kind) (length : Z) (s : list byte) (off : nat) :
  fits tg t length ->
  reads (struc.unpackSlice tg t o k length) s off
        (Z.to_nat length * struc.Size t)
        (map (fun c => struc.store tg k (struc.number t o c))
             (struc.chunks (struc.Size t) (Z.to_nat length)
                (firstn (Z.to_nat length * struc.Size t) (skipn off s)))).
Proof.
  intros F. unfold reads.
  rewrite (unpackSlice_readSlice tg t o k length _ F).
  apply reads_readSlice.
Qed.

Lemma fits_const (tg : Int.Target) (t : struc.Type_) : fits tg t 7.
Proof.
  unfold fits. split; [lia | ].
  destruct tg, t; cbn [Int.intSize struc.Size]; reflexivity.
Qed.

Lemma fits_uint32 (t : struc.Type_) (n : Z) :
  Int.uint32 n -> fits Int.Target64 t n.
Proof.
  unfold fits, Int.uint32. intros [H0 H1]. split; [exact H0 | ].
  cbn [Int.intSize]. change (2 ^ 32) with 4294967296 in H1.
  change (2 ^ (64 - 1)) with 9223372036854775808.
  destruct t; cbn [struc.Size]; lia.
Qed.

Lemma reads_unpackString (len : nat) (s : list byte) (off : nat) :
  reads (struc.unpackString len) s off len
        (string_of_list_byte (firstn len (skipn off s))).
Proof.
  unfold struc.unpackString.
  apply (reads_map (struc.readFull _) string_of_list_byte), reads_readFull.
Qed.

Lemma chunks_length (size count : nat) (buf : list byte) :
  List.length (struc.chunks size count buf) = count.
Proof.
  revert buf. induction count as [ | n IH]; intros buf; simpl;
    [reflexivity | rewrite IH; reflexivity].
Qed.

Lemma reads_length {A} (m : Unpacker A) (s : list byte) (off n n' : nat) (a : A) :
  reads m s off n a -> n = n' -> reads m s off n' a.
Proof. intros H <-. exact H. Qed.

(** ** What [Unpack] establishes *)

Lemma Forall_map_store {P : Z -> Prop} (f : list byte -> Z) (l : list (list byte)) :
  (forall c, P (f c)) -> Forall P (map f l).
Proof.
  intros H. induction l as [ | c l IH]; simpl; constructor; auto.
Qed.

Ltac fits_side :=
  first [ apply fits_const
        | apply fits_uint32; unfold struc.sizefrom; apply store_int_uint32 ].

Ltac reads_step :=
  eapply reads_bind;
  [ first [ apply reads_unpackVal
          | apply reads_unpackSlice; fits_side
          | apply reads_unpackString ]
  | cbv beta ].

Lemma Unpack_reads (s : list byte) :
  exists h : FileHeader,
    reads (Unpack Int.Target64) s 0 (bytesRead (frameCount s)) h
    /\ Signature h = signatureOf s
    /\ NFrames h = frameCount s
    /\ decodedInv h.
Proof.
  eexists. split; [ | split; [ | split]].
  - eapply reads_length.
    + unfold Unpack. do 15 reads_step. apply reads_ret.
    + unfold bytesRead, frameCount, struc.sizefrom.
      cbn [struc.Size Nat.add]. lia.
  - reflexivity.
  - reflexivity.
  - constructor; cbn [Width Height NFrames FrameRate_ Flags AudioSize TreesSize
                      MMapSize MClrSize FullSize TypeSize TrackInfo_ FrameSizes
                      FrameTypes];
      try apply store_int_uint32; try apply store_uint32_uint32;
      try apply store_int32_int32;
      try (apply Forall_map_store; intros c;
           first [ apply store_int_uint32 | apply store_uint32_uint32
                 | apply store_uint8_uint8 ]);
      rewrite List.length_map, chunks_length; reflexivity.
Qed.

Lemma Unpack_complete (s : list byte) :
  (bytesRead (frameCount s) <= List.length s)%nat ->
  exists h : FileHeader,
    Unpack Int.Target64 s = Ok (h, skipn (bytesRead (frameCount s)) s)
    /\ Signature h = signatureOf s
    /\ NFrames h = frameCount s
    /\ decodedInv h.
Proof.
  intros Hlen. destruct (Unpack_reads s) as [h [[Hok _] H]].
  exists h. split; [ | exact H]. apply (Hok Hlen).
Qed.

Lemma Unpack_truncated (s : list byte) :
  (List.length s < bytesRead (frameCount s))%nat ->
  exists e : error, Unpack Int.Target64 s = Err e /\ truncation e.
Proof.
  intros Hlen. destruct (Unpack_reads s) as [h [[_ Herr] _]].
  apply Herr; [exact Hlen | apply Nat.le_0_l].
Qed.

Lemma Unpack_ok_inv (s : list byte) (h : FileHeader) (rest : list byte) :
  Unpack Int.Target64 s = Ok (h, rest) ->
  (bytesRead (frameCount s) <= List.length s)%nat
  /\ rest = skipn (bytesRead (frameCount s)) s
  /\ Signature h = signatureOf s
  /\ NFrames h = frameCount s
  /\ decodedInv h.
Proof.
  intros E.
  destruct (Nat.lt_ge_cases (List.length s) (bytesRead (frameCount s)))
    as [Hlt | Hge].
  - destruct (Unpack_truncated s Hlt) as [e [E' _]]. congruence.
  - destruct (Unpack_complete s Hge) as [h' [E' H]].
    rewrite E in E'. injection E' as -> ->. auto.
Qed.

(** ** What [Parse] establishes *)

Lemma Parse_ok_inv {tg : Int.Target} (rd : Reader) (f : File) :
  Parse tg rd = Ok f ->
  Unpack tg (readerBytes rd) = Ok (Header f, r f)
  /\ validSignature (Signature (Header f)) = true
  /\ c f = readerCloser rd.
Proof.
  unfold Parse, parseFileHeader, bind. intros E.
  destruct (Unpack tg (readerBytes rd)) as [[h rest] | e | ];
    [ | discriminate | discriminate].
  destruct (validSignature (Signature h)) eqn:V; [ | discriminate].
  unfold ret in E. injection E as <-. auto.
Qed.

Lemma Parse_truncated (rd : Reader) :
  (List.length (readerBytes rd) < bytesRead (frameCount (readerBytes rd)))%nat ->
  exists e : error, Parse Int.Target64 rd = Err e /\ truncation e.
Proof.
  intros Hlen. destruct (Unpack_truncated _ Hlen) as [e [E He]].
  exists e. split; [ | exact He].
  unfold Parse, parseFileHeader, bind. rewrite E. reflexivity.
Qed.

Lemma Parse_complete (rd : Reader) :
  (bytesRead (frameCount (readerBytes rd)) <= List.length (readerBytes rd))%nat ->
  Parse Int.Target64 rd =
    if validSignature (signatureOf (readerBytes rd))
    then match Unpack Int.Target64 (readerBytes rd) with
         | Ok (h, rest) => Ok (mkFile h rest (readerCloser rd))
         | Err e => Err e
         | Panic => Panic
         end
    else Err (ErrInvalidSignature (signatureOf (readerBytes rd))).
Proof.
  intros Hlen. destruct (Unpack_complete _ Hlen) as [h [E [Hs _]]].
  unfold Parse, parseFileHeader, bind. rewrite E, Hs.
  destruct (validSignature (signatureOf (readerBytes rd))); reflexivity.
Qed.

(** *** On either target *)

Lemma bind_ok_inv {A B} (m : Unpacker A) (k : A -> Unpacker B) (s : list byte)
      (b : B) (rest : list byte) :
  bind m k s = Ok (b, rest) ->
  exists (a : A) (s' : list byte), m s = Ok (a, s') /\ k a s' = Ok (b, rest).
Proof.
  unfold bind. intros E.
  destruct (m s) as [[a s'] | e | ]; [ | discriminate | discriminate].
  exists a, s'. auto.
Qed.

Lemma unpackVal_ok_inv (tg : Int.Target) (t : struc.Type_) (o : struc.ByteOrder)
      (k : struc.Kind) (s : list byte) (v : Z) (rest : list byte) :
  struc.unpackVal tg t o k s = Ok (v, rest) ->
  exists buf : list byte, v = struc.store tg k (struc.number t o buf).
Proof.
  unfold struc.unpackVal. intros E.
  apply bind_ok_inv in E. destruct E as [buf [s' [_ E]]].
  unfold ret in E. injection E as <- _. exists buf. reflexivity.
Qed.

(** What [int] holds is within the range of [int]. *)
Lemma store_KInt_range (tg : Int.Target) (n : Z) :
  - 2 ^ (Int.intSize tg - 1) <= struc.store tg struc.KInt n
  < 2 ^ (Int.intSize tg - 1).
Proof.
  cbn [struc.store]. apply wrapS_range. destruct tg; reflexivity.
Qed.

(** A slice that is unpacked has as many elements as its length says, none
    when the length is 0 or less. *)
Lemma unpackSlice_ok_length (tg : Int.Target) (t : struc.Type_)
      (o : struc.ByteOrder) (k : struc.Kind) (length : Z) (s : list byte)
      (l : list Z) (rest : list byte) :
  struc.unpackSlice tg t o k length s = Ok (l, rest) ->
  List.length l = Z.to_nat length.
Proof.
  unfold struc.unpackSlice. intros E.
  destruct (_ <? 0); [discriminate | ].
  apply bind_ok_inv in E. destruct E as [buf [s' [_ E]]].
  destruct (Z.leb_spec length 0) as [Hle | Hgt].
  - unfold ret in E. injection E as <- _.
    destruct length; try reflexivity. lia.
  - destruct (_ =? _); [ | discriminate].
    unfold ret in E. injection E as <- _.
    rewrite List.length_map. apply chunks_length.
Qed.

(** A slice of bytes whose length is a negative [int] is not unpacked. *)
Lemma unpackSlice_bytes_ok_nonneg (tg : Int.Target) (o : struc.ByteOrder)
      (k : struc.Kind) (length : Z) (s : list byte) (l : list Z)
      (rest : list byte) :
  - 2 ^ (Int.intSize tg - 1) <= length < 2 ^ (Int.intSize tg - 1) ->
  struc.unpackSlice tg struc.Uint8 o k length s = Ok (l, rest) ->
  0 <= length.
Proof.
  unfold struc.unpackSlice. cbn [struc.Size]. intros R E.
  rewrite Z.mul_1_r in E.
  rewrite wrapS_small in E by (auto; destruct tg; reflexivity).
  destruct (Z.ltb_spec length 0) as [Hn | Hp]; [discriminate | exact Hp].
Qed.

Tactic Notation "inv_bind" hyp(U) ident(a) ident(s) ident(H) :=
  apply bind_ok_inv in U; destruct U as (a & s & H & U); cbv beta in U.


(** ** Decoding: the claims *)

(** C1, at the failing input: the sample header written in the layout of
    section 4.2 (every 32-bit field little-endian, 4 bytes of padding before
    the frame sizes) is accepted by [Parse], but the header returned is not
    the one written: [Flags] comes back byte-swapped, the padding is taken
    for the frame size, the first byte of the frame size for the frame type,
    and four bytes are left unread. *)
Theorem Parse_layout_mismatch (tg : Int.Target) :
  exists f : File,
    Parse tg layoutReader = Ok f
    /\ Header f <> sampleHeader
    /\ Flags sampleHeader = 1 /\ Flags (Header f) = 16777216
    /\ FrameSizes sampleHeader = [5] /\ FrameSizes (Header f) = [0]
    /\ FrameTypes sampleHeader = [1] /\ FrameTypes (Header f) = [5]
    /\ r f = [x00; x00; x00; x01].
Proof.
  destruct tg;
    (eexists; split; [vm_compute; reflexivity | ];
     cbn [Header r]; repeat split; try reflexivity;
     intros E; apply (f_equal Flags) in E; vm_compute in E; discriminate).
Qed.

(** The layout [Unpack] reads does give the sample header back. *)
Lemma Parse_sampleReader : Parse Int.Target64 sampleReader = Ok sampleFile.
Proof. vm_compute. reflexivity. Qed.




(** C3, at the failing input: a valid signature followed by 96 zero bytes
    announces no frame, so the layout of section 4.2 takes 104 bytes; the
    stream has 100, and [Parse] returns a [File]. *)
Theorem Parse_missing_padding_accepted (tg : Int.Target) :
  frameCount (readerBytes noPaddingReader) = 0
  /\ List.length (readerBytes noPaddingReader) = 100%nat
  /\ layoutSize (frameCount (readerBytes noPaddingReader)) = 104%nat
  /\ exists f : File, Parse tg noPaddingReader = Ok f.
Proof.
  repeat split; try reflexivity.
  destruct tg; eexists; vm_compute; reflexivity.
Qed.

(** C8: on either target, the frame size and frame type slices of a parsed
    file have [NFrames] elements each. *)
Theorem Parse_frame_lengths (tg : Int.Target) (rd : Reader) (f : File) :
  Parse tg rd = Ok f ->
  Z.of_nat (List.length (FrameSizes (Header f))) = NFrames (Header f)
  /\ Z.of_nat (List.length (FrameTypes (Header f))) = NFrames (Header f).
Proof.
  intros E. destruct (Parse_ok_inv rd f E) as [U _].
  unfold Unpack, struc.sizefrom in U.
  inv_bind U sg s1 Hsig. inv_bind U w s2 Hw. inv_bind U ht s3 Hht.
  inv_bind U n s4 Hn. inv_bind U rate s5 Hrate. inv_bind U fl s6 Hfl.
  inv_bind U asz s7 Hasz. inv_bind U ts s8 Hts. inv_bind U mm s9 Hmm.
  inv_bind U mc s10 Hmc. inv_bind U fu s11 Hfu. inv_bind U ty s12 Hty.
  inv_bind U ti s13 Hti. inv_bind U fs s14 Hfs. inv_bind U ft s15 Hft.
  unfold ret in U. injection U as Hh _. rewrite <- Hh.
  cbn [FrameSizes FrameTypes NFrames].
  apply unpackVal_ok_inv in Hn. destruct Hn as [buf Hn].
  pose proof (store_KInt_range tg
                (struc.number struc.Uint32 struc.LittleEndian buf)) as Hrange.
  rewrite <- Hn in Hrange.
  pose proof (unpackSlice_bytes_ok_nonneg _ _ _ _ _ _ _ Hrange Hft) as Hpos.
  pose proof (unpackSlice_ok_length _ _ _ _ _ _ _ _ Hfs) as Lfs.
  pose proof (unpackSlice_ok_length _ _ _ _ _ _ _ _ Hft) as Lft.
  unfold FrameType. rewrite Lfs, Lft, Z2Nat.id by exact Hpos.
  split; reflexivity.
Qed.

Lemma Parse_frame_lengths_witness :
  Parse Int.Target64 sampleReader = Ok sampleFile
  /\ Z.of_nat (List.length (FrameSizes (Header sampleFile))) = 1
  /\ Z.of_nat (List.length (FrameTypes (Header sampleFile))) = 1.
Proof.
  split; [vm_compute; reflexivity | ].
  apply (Parse_frame_lengths Int.Target64 sampleReader sampleFile).
  vm_compute. reflexivity.
Defined.

(** C10 as stated fails where [int] has 32 bits: a width of 0xFFFFFFFF is
    parsed as -1. *)
Lemma Parse_uint32_fields_counterexample :
  exists f : File,
    Parse Int.Target32 wideReader = Ok f
    /\ Width (Header f) = -1
    /\ ~ uint32Fields (Header f).
Proof.
  eexists. split; [vm_compute; reflexivity | ]. split; [reflexivity | ].
  unfold uint32Fields. cbn [Header Width]. lia.
Qed.

(** C10, amended: where [int] has 64 bits, every field of a parsed header
    that the layout holds as an unsigned 32-bit value is at least 0 and
    below 2^32 in its [int]. *)
Theorem Parse_uint32_fields (rd : Reader) (f : File) :
  Parse Int.Target64 rd = Ok f -> uint32Fields (Header f).
Proof.
  intros E. destruct (Parse_ok_inv rd f E) as [U _].
  destruct (Unpack_ok_inv _ _ _ U) as [_ [_ [_ [_ I]]]].
  destruct I as [W H N _ _ A AL T M C F Y _ _ S _ _ _].
  rewrite Forall_forall in A, S. unfold uint32Fields, Int.uint32 in *.
  repeat match goal with |- _ /\ _ => split end; auto; tauto.
Qed.

Lemma Parse_uint32_fields_witness :
  Parse Int.Target64 sampleReader = Ok sampleFile /\ uint32Fields (Header sampleFile).
Proof.
  split; [vm_compute; reflexivity | ].
  apply (Parse_uint32_fields sampleReader sampleFile). vm_compute. reflexivity.
Defined.

(** ** Frame rate *)

Lemma FPS_cases (rate : FrameRate) :
  Int.int32 rate ->
  (0 < rate ->
   FPS rate = float64_div (float64_of_int 1000) (float64_of_int rate))
  /\ (rate < 0 -> rate <> minInt32 ->
      FPS rate = float64_div (float64_of_int 100000) (float64_of_int (- rate)))
  /\ (rate = 0 -> FPS rate = float64_of_int 10).
Proof.
  unfold Int.int32, minInt32, FPS. intros Hr. split; [ | split].
  - intros H. apply Z.ltb_lt in H. rewrite H. reflexivity.
  - intros H N.
    destruct (0 <? rate) eqn:P; [apply Z.ltb_lt in P; lia | ].
    apply Z.ltb_lt in H. rewrite H.
    rewrite wrapS_small; [reflexivity | lia | ].
    change (2 ^ (32 - 1)) with (2 ^ 31). lia.
  - intros ->. reflexivity.
Qed.

Lemma signbit_binary_round_aux (mx ex : Z) (lx : location) :
  float64_signbit (binary_round_aux float64_prec float64_emax false mx ex lx)
  = false.
Proof.
  unfold binary_round_aux.
  destruct (shr_fexp float64_prec float64_emax mx ex lx) as [mrs' e'].
  destruct (shr_fexp float64_prec float64_emax _ e' loc_Exact) as [mrs'' e''].
  destruct (shr_m mrs'') as [ | m | m]; try reflexivity.
  destruct (e'' <=? float64_emax - float64_prec); reflexivity.
Qed.

Lemma signbit_float64_of_int (n : Z) :
  0 <= n -> float64_signbit (float64_of_int n) = false.
Proof.
  intros Hn. unfold float64_of_int, binary_normalize.
  destruct n as [ | m | m]; [reflexivity | | lia].
  unfold binary_round.
  destruct (shl_align m 0 _) as [mz ez]. apply signbit_binary_round_aux.
Qed.

Lemma signbit_float64_div (x y : float64) :
  float64_signbit x = false -> float64_signbit y = false ->
  float64_signbit (float64_div x y) = false.
Proof.
  unfold float64_div, SFdiv.
  destruct x as [sx | sx | | sx mx ex], y as [sy | sy | | sy my ey];
    cbn [float64_signbit]; intros Hx Hy; subst; try reflexivity.
  destruct (SFdiv_core_binary float64_prec float64_emax _ ex _ ey) as [[mz ez] lz].
  apply signbit_binary_round_aux.
Qed.

(** Apart from the smallest [int32], no rate gives a negative frame rate. *)
Lemma FPS_signbit (rate : FrameRate) :
  Int.int32 rate -> rate <> minInt32 -> float64_signbit (FPS rate) = false.
Proof.
  intros Hr Hm. destruct (FPS_cases rate Hr) as [Hpos [Hneg Hzero]].
  destruct (Z.lt_total 0 rate) as [H | [H | H]].
  - rewrite (Hpos H).
    apply signbit_float64_div; apply signbit_float64_of_int; lia.
  - rewrite (Hzero (eq_sym H)). apply signbit_float64_of_int. lia.
  - rewrite (Hneg H Hm).
    apply signbit_float64_div; apply signbit_float64_of_int; lia.
Qed.

(** The four rates the specification lists give 10, 1, 1 and 1/2. *)
Lemma FPS_examples :
  float64_value (FPS 0) = Some (10 # 1)%Q
  /\ float64_value (FPS 1000) = Some (1 # 1)%Q
  /\ float64_value (FPS (-100000)) = Some (1 # 1)%Q
  /\ float64_value (FPS 2000) = Some (1 # 2)%Q.
Proof. repeat split; vm_compute; reflexivity. Qed.

(** C4, at the failing input: for the smallest [int32] the negation wraps
    around to the same negative number, and [FPS] returns
    -100000 / 2^31 = -3125/67108864, where 100000 / (-r) is
    3125/67108864. *)
Theorem FPS_minInt32 :
  Int.int32 minInt32
  /\ Int.wrapS 32 (- minInt32) = minInt32
  /\ float64_signbit (FPS minInt32) = true
  /\ float64_value (FPS minInt32) = Some (- 3125 # 67108864)%Q
  /\ Qred ((100000 # 1) / inject_Z (- minInt32))%Q = (3125 # 67108864)%Q.
Proof.
  split; [unfold Int.int32, minInt32; lia | ].
  repeat split; vm_compute; reflexivity.
Qed.

(** ** Frame types *)

Lemma hasFlag_testbit (t : FrameType) (k : Z) :
  0 <= k -> hasFlag t (2 ^ k) = Z.testbit t k.
Proof.
  intros Hk. unfold hasFlag.
  assert (B : forall i, 0 <= i ->
              Z.testbit (Z.land t (2 ^ k)) i = Z.testbit t i && (k =? i)).
  { intros i Hi. rewrite Z.land_spec, Z.pow2_bits_eqb by exact Hk. reflexivity. }
  destruct (Z.testbit t k) eqn:T.
  - destruct (Z.land t (2 ^ k) =? 0) eqn:E; [ | reflexivity].
    apply Z.eqb_eq in E. specialize (B k Hk).
    rewrite E, Z.bits_0, T, Z.eqb_refl in B. discriminate.
  - assert (E : Z.land t (2 ^ k) = 0).
    { apply Z.bits_inj'. intros i Hi. rewrite B, Z.bits_0 by exact Hi.
      destruct (Z.eqb_spec k i) as [<- | ]; [rewrite T | ];
        auto using andb_false_r. }
    rewrite E. reflexivity.
Qed.

(** C6: the palette constant is bit 0, the audio constant of track N is
    [1 << (N+1)] for N from 0 to 6, the eight constants are the eight powers
    of two below 256, no two of them are equal, and testing a frame type
    against one of them reads bit 0 for the palette and bit N+1 for
    track N. *)
Theorem FrameType_bit_mapping :
  FrameTypePaletteRecord = 0x01
  /\ FrameTypeAudioDataTrack0 = Z.shiftl 1 (0 + 1)
  /\ FrameTypeAudioDataTrack1 = Z.shiftl 1 (1 + 1)
  /\ FrameTypeAudioDataTrack2 = Z.shiftl 1 (2 + 1)
  /\ FrameTypeAudioDataTrack3 = Z.shiftl 1 (3 + 1)
  /\ FrameTypeAudioDataTrack4 = Z.shiftl 1 (4 + 1)
  /\ FrameTypeAudioDataTrack5 = Z.shiftl 1 (5 + 1)
  /\ FrameTypeAudioDataTrack6 = Z.shiftl 1 (6 + 1)
  /\ frameTypeConsts = map (fun i => 2 ^ i) [0; 1; 2; 3; 4; 5; 6; 7]
  /\ NoDup frameTypeConsts
  /\ forall (t : FrameType),
       map (hasFlag t) frameTypeConsts
       = map (Z.testbit t) [0; 1; 2; 3; 4; 5; 6; 7].
Proof.
  repeat match goal with |- _ /\ _ => split end; try reflexivity.
  - repeat constructor; simpl; intuition discriminate.
  - intros t.
    change frameTypeConsts with (map (fun i => 2 ^ i) [0; 1; 2; 3; 4; 5; 6; 7]).
    rewrite map_map. cbn [map].
    repeat (rewrite hasFlag_testbit by lia). reflexivity.
Qed.

(** C7 as stated fails: in 0x82 the palette bit is clear and the bit of
    track 6 is set. *)
Lemma flagsSet_0x82_counterexample :
  flagsSet 0x82 <> [FrameTypePaletteRecord; FrameTypeAudioDataTrack0]
  /\ hasFlag 0x82 FrameTypePaletteRecord = false
  /\ hasFlag 0x82 FrameTypeAudioDataTrack6 = true.
Proof.
  split; [ | split]; try reflexivity.
  intros E. vm_compute in E. discriminate.
Qed.

(** C7, amended: 0x01 carries the palette record only; 0x82 carries audio
    data for track 0 and for track 6, and no palette record. *)
Theorem flagsSet_examples :
  flagsSet 0x01 = [FrameTypePaletteRecord]
  /\ flagsSet 0x82 = [FrameTypeAudioDataTrack0; FrameTypeAudioDataTrack6].
Proof. split; reflexivity. Qed.

(** ** Close *)

Lemma closeN_no_closer (n : nat) (f : File) :
  c f = None -> closeN n f = (f, repeat None n).
Proof.
  intros H. induction n as [ | n IH]; [reflexivity | ].
  simpl. unfold Close at 1. rewrite H, IH. reflexivity.
Qed.

(** C9 as stated fails: a file opened with [ParseFile] returns
    [os.ErrClosed] from its second [Close]. *)
Lemma Close_twice_counterexample :
  exists f : File,
    ParseFile Int.Target64 sampleFS "sample.smk" = Ok f
    /\ snd (Close f) = None
    /\ snd (Close (fst (Close f))) = Some ErrClosed.
Proof.
  eexists. split; [vm_compute; reflexivity | ]. split; reflexivity.
Qed.

(** C9, amended: [Close] returns what the [Close] of the reader's closer
    returns, on the first call and on every later one, each call acting on
    the closer as the call before left it; on a file parsed from a reader
    that is no [io.Closer], any number of calls return [nil] and leave the
    file as it is. *)
Theorem Close_spec (tg : Int.Target) (rd : Reader) (f : File) :
  Parse tg rd = Ok f ->
  (readerCloser rd = None ->
   forall n : nat, closeN n f = (f, repeat None n))
  /\ (forall cl : Closer, readerCloser rd = Some cl ->
      Close f = (mkFile (Header f) (r f) (Some (fst (callClose cl))),
                 snd (callClose cl))
      /\ snd (Close (fst (Close f))) = snd (callClose (fst (callClose cl)))).
Proof.
  intros E. destruct (Parse_ok_inv rd f E) as [_ [_ Hc]]. split.
  - intros N n. apply closeN_no_closer. congruence.
  - intros cl Hcl. rewrite Hcl in Hc.
    assert (E1 : Close f = (mkFile (Header f) (r f) (Some (fst (callClose cl))),
                            snd (callClose cl))).
    { unfold Close. rewrite Hc. destruct (callClose cl). reflexivity. }
    split; [exact E1 | ].
    rewrite E1. cbn [fst]. unfold Close. cbn [c].
    destruct (callClose (fst (callClose cl))). reflexivity.
Qed.

Lemma Close_spec_witness :
  Parse Int.Target64 sampleReader = Ok sampleFile
  /\ readerCloser sampleReader = None
  /\ closeN 2 sampleFile = (sampleFile, [None; None]).
Proof.
  split; [vm_compute; reflexivity | ]. split; [reflexivity | ].
  apply (Close_spec Int.Target64 sampleReader sampleFile);
    [vm_compute; reflexivity | reflexivity].
Defined.

(** ** Track descriptors *)

(** Testing a mask of one bit reads that bit. *)
Lemma land_pow2_testbit (u k : Z) :
  0 <= k -> negb (Z.land u (2 ^ k) =? 0) = Z.testbit u k.
Proof. intros Hk. exact (hasFlag_testbit u k Hk). Qed.

Lemma land_0xC000000 (u : Z) :
  (Z.land u 0xC000000 =? 0) = negb (Z.testbit u 27) && negb (Z.testbit u 26).
Proof.
  change 0xC000000 with (Z.lor (2 ^ 27) (2 ^ 26)).
  rewrite Z.land_lor_distr_r.
  rewrite <- (land_pow2_testbit u 27), <- (land_pow2_testbit u 26) by lia.
  rewrite !negb_involutive.
  destruct (Z.eqb_spec (Z.land u (2 ^ 27)) 0) as [E27 | N27];
    destruct (Z.eqb_spec (Z.land u (2 ^ 26)) 0) as [E26 | N26];
    cbn [andb];
    try (rewrite E27, E26; reflexivity);
    apply Z.eqb_neq; intros E; apply Z.lor_eq_0_iff in E; tauto.
Qed.

Lemma land_0xFFFFFF_range (u : Z) : Int.uint32 (Z.land u 0xFFFFFF).
Proof.
  change 0xFFFFFF with (Z.ones 24). rewrite Z.land_ones by lia.
  pose proof (Z.mod_pos_bound u (2 ^ 24) eq_refl) as H.
  unfold Int.uint32. change (2 ^ 24) with 16777216 in *.
  change (2 ^ 32) with 4294967296. lia.
Qed.

Lemma SampleRate_land (tg : Int.Target) (u : Z) :
  SampleRate tg u = Z.land u 0xFFFFFF.
Proof.
  unfold SampleRate. apply int_of_uint32_small.
  change 0xFFFFFF with (Z.ones 24). rewrite Z.land_ones by lia.
  pose proof (Z.mod_pos_bound u (2 ^ 24) eq_refl) as H.
  change (2 ^ 24) with 16777216 in *. change (2 ^ 31) with 2147483648. lia.
Qed.

Lemma land_0xFFFFFF_agree (u v : Z) :
  agreeOutsideUnused u v -> Z.land u 0xFFFFFF = Z.land v 0xFFFFFF.
Proof.
  intros A. apply Z.bits_inj'. intros i Hi. rewrite !Z.land_spec.
  change 0xFFFFFF with (Z.ones 24).
  destruct (Z.lt_ge_cases i 24) as [Hlt | Hge].
  - rewrite (A i) by lia. reflexivity.
  - rewrite Z.ones_spec_high by lia. rewrite !andb_false_r. reflexivity.
Qed.

(** C5: each accessor reads the bits the doc comment of [TrackInfo] gives
    it, and none of them depends on bits 25-24. *)
Theorem TrackInfo_accessors (u : TrackInfo) :
  Int.uint32 u ->
  IsCompressed u = Z.testbit u 31
  /\ HasAudioData u = Z.testbit u 30
  /\ BitRate u = (if Z.testbit u 29 then 16 else 8)
  /\ NChannels u = (if Z.testbit u 28 then 2 else 1)
  /\ IsVersion2 u = negb (Z.testbit u 27) && negb (Z.testbit u 26)
  /\ (forall tg : Int.Target, SampleRate tg u = Z.land u 0xFFFFFF)
  /\ forall v : TrackInfo,
       Int.uint32 v -> agreeOutsideUnused u v ->
       IsCompressed v = IsCompressed u
       /\ HasAudioData v = HasAudioData u
       /\ BitRate v = BitRate u
       /\ NChannels v = NChannels u
       /\ IsVersion2 v = IsVersion2 u
       /\ forall tg : Int.Target, SampleRate tg v = SampleRate tg u.
Proof.
  intros _.
  assert (A : forall w : Z,
             IsCompressed w = Z.testbit w 31
             /\ HasAudioData w = Z.testbit w 30
             /\ BitRate w = (if Z.testbit w 29 then 16 else 8)
             /\ NChannels w = (if Z.testbit w 28 then 2 else 1)
             /\ IsVersion2 w = negb (Z.testbit w 27) && negb (Z.testbit w 26)).
  { intros w. unfold IsCompressed, HasAudioData, BitRate, NChannels, IsVersion2.
    change 0x80000000 with (2 ^ 31). change 0x40000000 with (2 ^ 30).
    change 0x20000000 with (2 ^ 29). change 0x10000000 with (2 ^ 28).
    rewrite !land_pow2_testbit by lia. rewrite land_0xC000000.
    repeat split. }
  destruct (A u) as [U1 [U2 [U3 [U4 U5]]]].
  repeat match goal with |- _ /\ _ => split end; try assumption.
  - intros tg. apply SampleRate_land.
  - intros v _ G. destruct (A v) as [V1 [V2 [V3 [V4 V5]]]].
    rewrite U1, U2, U3, U4, U5, V1, V2, V3, V4, V5.
    rewrite <- !(G 31), <- !(G 30), <- !(G 29), <- !(G 28), <- !(G 27),
      <- !(G 26) by lia.
    repeat match goal with |- _ /\ _ => split end; try reflexivity.
    intros tg. rewrite !SampleRate_land. symmetry.
    apply land_0xFFFFFF_agree. exact G.
Qed.

Lemma TrackInfo_accessors_witness :
  Int.uint32 0x3000FFFF
  /\ IsCompressed 0x3000FFFF = false
  /\ HasAudioData 0x3000FFFF = false
  /\ BitRate 0x3000FFFF = 16
  /\ NChannels 0x3000FFFF = 2
  /\ SampleRate Int.Target32 0x3000FFFF = 0xFFFF.
Proof.
  assert (R : Int.uint32 0x3000FFFF) by (unfold Int.uint32; lia).
  split; [exact R | ].
  destruct (TrackInfo_accessors 0x3000FFFF R) as [H1 [H2 [H3 [H4 [_ [H6 _]]]]]].
  rewrite H1, H2, H3, H4, (H6 Int.Target32).
  repeat match goal with |- _ /\ _ => split end; reflexivity.
Defined.

(** ** Round trip on the layout [Unpack] reads *)

Lemma u8_byte_of_Z (n : Z) : Int.u8 (byte_of_Z n) = n mod 256.
Proof.
  unfold Int.u8, byte_of_Z.
  pose proof (Z.mod_pos_bound n 256 eq_refl) as Hn.
  destruct (Byte.of_N (Z.to_N (n mod 256))) as [b | ] eqn:E.
  - apply Byte.to_of_N in E. rewrite E. apply Z2N.id. lia.
  - apply Byte.of_N_None_iff in E. lia.
Qed.

(** Bits of one byte of a value, put back in place. *)
Lemma byte_in_place_bits (v k i : Z) :
  0 <= k -> 0 <= i ->
  Z.testbit (Z.shiftl (Z.shiftr v k mod 256) k) i
  = Z.testbit v i && (k <=? i) && (i <? k + 8).
Proof.
  intros Hk Hi. rewrite Z.shiftl_spec by exact Hi.
  change 256 with (2 ^ 8).
  destruct (Z.leb_spec k i) as [Hki | Hki].
  - destruct (Z.ltb_spec i (k + 8)) as [Hi8 | Hi8].
    + rewrite Z.mod_pow2_bits_low by lia.
      rewrite Z.shiftr_spec by lia.
      replace (i - k + k) with i by lia.
      rewrite !andb_true_r. reflexivity.
    + rewrite Z.mod_pow2_bits_high by lia. rewrite andb_false_r. reflexivity.
  - rewrite Z.testbit_neg_r by lia. rewrite andb_false_r. reflexivity.
Qed.

Lemma bytes_in_place (v : Z) :
  Z.lor (Z.lor (Z.lor (v mod 256) (Z.shiftl (Z.shiftr v 8 mod 256) 8))
               (Z.shiftl (Z.shiftr v 16 mod 256) 16))
        (Z.shiftl (Z.shiftr v 24 mod 256) 24)
  = v mod 2 ^ 32.
Proof.
  apply Z.bits_inj'. intros i Hi.
  rewrite !Z.lor_spec, !byte_in_place_bits by lia.
  replace (v mod 256) with (Z.shiftl (Z.shiftr v 0 mod 256) 0)
    by (rewrite Z.shiftl_0_r, Z.shiftr_0_r; reflexivity).
  rewrite byte_in_place_bits by lia.
  destruct (Z.ltb_spec i 32) as [H32 | H32].
  - rewrite Z.mod_pow2_bits_low by lia.
    destruct (Z.testbit v i); [ | reflexivity]. cbn [andb].
    destruct (Z.leb_spec 0 i), (Z.ltb_spec i (0 + 8)),
             (Z.leb_spec 8 i), (Z.ltb_spec i (8 + 8)),
             (Z.leb_spec 16 i), (Z.ltb_spec i (16 + 8)),
             (Z.leb_spec 24 i), (Z.ltb_spec i (24 + 8)); try reflexivity; lia.
  - rewrite Z.mod_pow2_bits_high by lia.
    destruct (Z.ltb_spec i (0 + 8)), (Z.ltb_spec i (8 + 8)),
             (Z.ltb_spec i (16 + 8)), (Z.ltb_spec i (24 + 8)); try lia;
      rewrite !andb_false_r; reflexivity.
Qed.

Lemma Uint32of_le32 (v : Z) :
  struc.Uint32of struc.LittleEndian (le32 v) = v mod 2 ^ 32.
Proof.
  unfold le32, struc.Uint32of. rewrite !u8_byte_of_Z. apply bytes_in_place.
Qed.

Lemma Uint32of_be32 (v : Z) :
  struc.Uint32of struc.BigEndian (be32 v) = v mod 2 ^ 32.
Proof.
  unfold be32, le32, struc.Uint32of. cbn [rev app].
  rewrite !u8_byte_of_Z. apply bytes_in_place.
Qed.

Lemma wrapS_mod (w n : Z) : 0 < w -> Int.wrapS w (n mod 2 ^ w) = Int.wrapS w n.
Proof.
  intros Hw. unfold Int.wrapS. f_equal.
  assert (P : 2 ^ w <> 0) by (apply Z.pow_nonzero; lia).
  rewrite Z.add_mod_idemp_l by exact P. reflexivity.
Qed.

(** Decoding the four bytes of a value gives the value back. *)
Lemma number_le32_uint32 (k : struc.Kind) (v : Z) :
  Int.uint32 v -> k = struc.KInt \/ k = struc.KUint32 ->
  struc.store Int.Target64 k (struc.number struc.Uint32 struc.LittleEndian (le32 v)) = v.
Proof.
  intros Hv Hk. cbn [struc.number]. rewrite Uint32of_le32.
  unfold Int.uint32 in Hv. rewrite Z.mod_small by exact Hv.
  destruct Hk as [-> | ->]; cbn [struc.store].
  - apply int_of_uint32_id. exact Hv.
  - unfold Int.wrapU. apply Z.mod_small. exact Hv.
Qed.

Lemma number_be32_uint32 (v : Z) :
  Int.uint32 v ->
  struc.store Int.Target64 struc.KUint32 (struc.number struc.Uint32 struc.BigEndian (be32 v)) = v.
Proof.
  intros Hv. cbn [struc.number struc.store]. rewrite Uint32of_be32.
  unfold Int.uint32 in Hv. unfold Int.wrapU.
  rewrite (Z.mod_small v) by exact Hv. apply Z.mod_small. exact Hv.
Qed.

Lemma number_le32_int32 (v : Z) :
  Int.int32 v ->
  struc.store Int.Target64 struc.KInt32 (struc.number struc.Int32 struc.LittleEndian (le32 v)) = v.
Proof.
  intros Hv. cbn [struc.number struc.store]. rewrite Uint32of_le32.
  rewrite wrapS_mod by lia.
  assert (E : Int.wrapS 32 v = v).
  { apply wrapS_small; [lia | ]. exact Hv. }
  rewrite E. exact E.
Qed.

Lemma number_byte_uint8 (o : struc.ByteOrder) (v : Z) (tl : list byte) :
  Int.uint8 v ->
  struc.store Int.Target64 struc.KUint8 (struc.number struc.Uint8 o (byte_of_Z v :: tl)) = v.
Proof.
  intros Hv. cbn [struc.number struc.store]. rewrite u8_byte_of_Z.
  unfold Int.uint8 in Hv. change (2 ^ 8) with 256 in Hv.
  unfold Int.wrapU. change (2 ^ 8) with 256.
  rewrite (Z.mod_small v) by exact Hv. apply Z.mod_small. exact Hv.
Qed.

Lemma readFull_app (x tail : list byte) :
  struc.readFull (List.length x) (x ++ tail) = Ok (x, tail).
Proof.
  destruct x as [ | b x']; [reflexivity | ].
  unfold struc.readFull. remember (b :: x') as x eqn:Ex.
  assert (Hn : List.length x = S (List.length x')) by (subst x; reflexivity).
  rewrite Hn. rewrite <- Hn.
  assert (Hs : x ++ tail = b :: (x' ++ tail)) by (subst x; reflexivity).
  rewrite Hs at 1. rewrite List.length_app.
  assert (L : Nat.ltb (List.length x + List.length tail) (List.length x) = false)
    by (apply Nat.ltb_ge; lia).
  rewrite L. rewrite List.firstn_app, Nat.sub_diag, List.firstn_all.
  rewrite List.skipn_app, Nat.sub_diag, List.skipn_all.
  cbn [firstn skipn app]. rewrite app_nil_r. reflexivity.
Qed.

Lemma bind_app {A B} (m : Unpacker A) (k : A -> Unpacker B)
      (x tail : list byte) (a : A) :
  m (x ++ tail) = Ok (a, tail) -> bind m k (x ++ tail) = k a tail.
Proof. intros E. unfold bind. rewrite E. reflexivity. Qed.

Lemma unpackVal_le32 (k : struc.Kind) (v : Z) (tail : list byte) :
  Int.uint32 v -> k = struc.KInt \/ k = struc.KUint32 ->
  struc.unpackVal Int.Target64 struc.Uint32 struc.LittleEndian k (le32 v ++ tail) = Ok (v, tail).
Proof.
  intros Hv Hk. unfold struc.unpackVal.
  rewrite (bind_app _ _ _ _ (le32 v)) by apply (readFull_app (le32 v)).
  unfold ret. rewrite number_le32_uint32 by assumption. reflexivity.
Qed.

Lemma unpackVal_be32 (v : Z) (tail : list byte) :
  Int.uint32 v ->
  struc.unpackVal Int.Target64 struc.Uint32 struc.BigEndian struc.KUint32 (be32 v ++ tail)
  = Ok (v, tail).
Proof.
  intros Hv. unfold struc.unpackVal.
  rewrite (bind_app _ _ _ _ (be32 v)) by apply (readFull_app (be32 v)).
  unfold ret. rewrite number_be32_uint32 by assumption. reflexivity.
Qed.

Lemma unpackVal_le32_int32 (v : Z) (tail : list byte) :
  Int.int32 v ->
  struc.unpackVal Int.Target64 struc.Int32 struc.LittleEndian struc.KInt32 (le32 v ++ tail)
  = Ok (v, tail).
Proof.
  intros Hv. unfold struc.unpackVal.
  rewrite (bind_app _ _ _ _ (le32 v)) by apply (readFull_app (le32 v)).
  unfold ret. rewrite number_le32_int32 by assumption. reflexivity.
Qed.

Lemma concat_le32_length (l : list Z) :
  List.length (List.concat (map le32 l)) = (List.length l * 4)%nat.
Proof.
  induction l as [ | a l IH]; [reflexivity | ].
  cbn [map List.concat]. rewrite List.length_app, IH. reflexivity.
Qed.

Lemma chunks_le32 (k : struc.Kind) (l : list Z) :
  Forall Int.uint32 l -> k = struc.KInt \/ k = struc.KUint32 ->
  map (fun c => struc.store Int.Target64 k (struc.number struc.Uint32 struc.LittleEndian c))
      (struc.chunks 4 (List.length l) (List.concat (map le32 l))) = l.
Proof.
  intros Hl Hk. induction Hl as [ | a l Ha Hl IH]; [reflexivity | ].
  cbn [map List.concat List.length struc.chunks].
  change (firstn 4 (le32 a ++ List.concat (map le32 l))) with (le32 a).
  change (skipn 4 (le32 a ++ List.concat (map le32 l)))
    with (List.concat (map le32 l)).
  rewrite IH, number_le32_uint32 by assumption. reflexivity.
Qed.

Lemma chunks_bytes (o : struc.ByteOrder) (l : list Z) :
  Forall Int.uint8 l ->
  map (fun c => struc.store Int.Target64 struc.KUint8 (struc.number struc.Uint8 o c))
      (struc.chunks 1 (List.length l) (map byte_of_Z l)) = l.
Proof.
  intros Hl. induction Hl as [ | a l Ha Hl IH]; [reflexivity | ].
  cbn [map List.length struc.chunks firstn skipn].
  rewrite IH, number_byte_uint8 by assumption. reflexivity.
Qed.

Lemma unpackSlice_le32 (k : struc.Kind) (len : Z) (l : list Z) (tail : list byte) :
  Z.of_nat (List.length l) = len -> Int.uint32 len ->
  Forall Int.uint32 l -> k = struc.KInt \/ k = struc.KUint32 ->
  struc.unpackSlice Int.Target64 struc.Uint32 struc.LittleEndian k len
    (List.concat (map le32 l) ++ tail) = Ok (l, tail).
Proof.
  intros <- Hr Hl Hk.
  rewrite unpackSlice_readSlice by (apply fits_uint32; exact Hr).
  rewrite Nat2Z.id. unfold readSlice. cbn [struc.Size].
  rewrite <- concat_le32_length.
  rewrite (bind_app _ _ _ _ (List.concat (map le32 l))) by apply readFull_app.
  unfold ret. rewrite chunks_le32 by assumption. reflexivity.
Qed.

Lemma unpackSlice_bytes (o : struc.ByteOrder) (len : Z) (l : list Z)
      (tail : list byte) :
  Z.of_nat (List.length l) = len -> Int.uint32 len ->
  Forall Int.uint8 l ->
  struc.unpackSlice Int.Target64 struc.Uint8 o struc.KUint8 len
    (map byte_of_Z l ++ tail) = Ok (l, tail).
Proof.
  intros <- Hr Hl.
  rewrite unpackSlice_readSlice by (apply fits_uint32; exact Hr).
  rewrite Nat2Z.id. unfold readSlice. cbn [struc.Size].
  rewrite Nat.mul_1_r.
  rewrite <- (List.length_map byte_of_Z l) at 1.
  rewrite (bind_app _ _ _ _ (map byte_of_Z l)) by apply readFull_app.
  unfold ret. rewrite chunks_bytes by assumption. reflexivity.
Qed.

Lemma list_byte_of_string_length (s : string) :
  List.length (list_byte_of_string s) = String.length s.
Proof.
  unfold list_byte_of_string. rewrite List.length_map.
  induction s as [ | a s IH]; [reflexivity | ].
  cbn [list_ascii_of_string List.length String.length]. rewrite IH. reflexivity.
Qed.

Lemma unpackString_app (n : nat) (s : string) (tail : list byte) :
  String.length s = n ->
  struc.unpackString n (list_byte_of_string s ++ tail) = Ok (s, tail).
Proof.
  intros <-. unfold struc.unpackString. rewrite <- list_byte_of_string_length.
  rewrite (bind_app _ _ _ _ (list_byte_of_string s)) by apply readFull_app.
  unfold ret. rewrite string_of_list_byte_of_string. reflexivity.
Qed.

(** Decoding the layout [Unpack] reads gives every field back, and leaves
    what follows the header in the reader. *)
Theorem Unpack_encodeRead (h : FileHeader) (tail : list byte) :
  wellFormed h -> Unpack Int.Target64 (encodeRead h ++ tail) = Ok (h, tail).
Proof.
  intros [Hsig [Hw [Hh [Hn [Hr [Hf [Hal [Ha [Ht [Hm [Hc [Hfu [Hty
          [Htl [Hti [Hsl [Hs [Hyl Hy]]]]]]]]]]]]]]]]]].
  assert (U7 : Int.uint32 7) by (unfold Int.uint32; lia).
  destruct h as [sig w ht n rate fl asz ts mm mc fu ty ti fs ft].
  cbn [Signature Width Height NFrames FrameRate_ Flags AudioSize TreesSize
       MMapSize MClrSize FullSize TypeSize TrackInfo_ FrameSizes FrameTypes] in *.
  assert (Hal' : Z.of_nat (List.length asz) = 7) by (rewrite Hal; reflexivity).
  assert (Htl' : Z.of_nat (List.length ti) = 7) by (rewrite Htl; reflexivity).
  unfold encodeRead, Unpack, struc.sizefrom.
  cbn [Signature Width Height NFrames FrameRate_ Flags AudioSize TreesSize
       MMapSize MClrSize FullSize TypeSize TrackInfo_ FrameSizes FrameTypes].
  rewrite <- !app_assoc.
  rewrite bind_app with (a := sig) by (apply unpackString_app; auto).
  rewrite bind_app with (a := w) by (apply unpackVal_le32; auto).
  rewrite bind_app with (a := ht) by (apply unpackVal_le32; auto).
  rewrite bind_app with (a := n) by (apply unpackVal_le32; auto).
  rewrite bind_app with (a := rate) by (apply unpackVal_le32_int32; auto).
  rewrite bind_app with (a := fl) by (apply unpackVal_be32; auto).
  rewrite bind_app with (a := asz) by (apply unpackSlice_le32; auto).
  rewrite bind_app with (a := ts) by (apply unpackVal_le32; auto).
  rewrite bind_app with (a := mm) by (apply unpackVal_le32; auto).
  rewrite bind_app with (a := mc) by (apply unpackVal_le32; auto).
  rewrite bind_app with (a := fu) by (apply unpackVal_le32; auto).
  rewrite bind_app with (a := ty) by (apply unpackVal_le32; auto).
  rewrite bind_app with (a := ti) by (apply unpackSlice_le32; auto).
  rewrite bind_app with (a := fs) by (apply unpackSlice_le32; auto).
  rewrite bind_app with (a := ft) by (apply unpackSlice_bytes; auto).
  reflexivity.
Qed.

(** [Parse] on the layout [Unpack] reads: a well-formed header with a
    recognised signature comes back field for field. *)
Theorem Parse_encodeRead (h : FileHeader) (tail : list byte) (cl : option Closer) :
  wellFormed h ->
  validSignature (Signature h) = true ->
  Parse Int.Target64 (mkReader (encodeRead h ++ tail) cl) = Ok (mkFile h tail cl).
Proof.
  intros W V. unfold Parse, parseFileHeader, bind. cbn [readerBytes readerCloser].
  rewrite (Unpack_encodeRead h tail W), V. reflexivity.
Qed.

(** The decoder of section 4.2 does give back every field of a header
    written in the layout of section 4.2, whatever the padding holds: the
    round trip of the specification fails on [Unpack] only through the byte
    order of [Flags] and the padding. *)
Theorem decodeLayout_encodeLayout (h : FileHeader) (padding : Z) (tail : list byte) :
  wellFormed h -> Int.uint32 padding ->
  decodeLayout (encodeLayout h padding ++ tail) = Ok (h, tail).
Proof.
  intros [Hsig [Hw [Hh [Hn [Hr [Hf [Hal [Ha [Ht [Hm [Hc [Hfu [Hty
          [Htl [Hti [Hsl [Hs [Hyl Hy]]]]]]]]]]]]]]]]]] Hp.
  assert (U7 : Int.uint32 7) by (unfold Int.uint32; lia).
  destruct h as [sig w ht n rate fl asz ts mm mc fu ty ti fs ft].
  cbn [Signature Width Height NFrames FrameRate_ Flags AudioSize TreesSize
       MMapSize MClrSize FullSize TypeSize TrackInfo_ FrameSizes FrameTypes] in *.
  assert (Hal' : Z.of_nat (List.length asz) = 7) by (rewrite Hal; reflexivity).
  assert (Htl' : Z.of_nat (List.length ti) = 7) by (rewrite Htl; reflexivity).
  unfold encodeLayout, decodeLayout, struc.sizefrom.
  cbn [Signature Width Height NFrames FrameRate_ Flags AudioSize TreesSize
       MMapSize MClrSize FullSize TypeSize TrackInfo_ FrameSizes FrameTypes].
  rewrite <- !app_assoc.
  rewrite bind_app with (a := sig) by (apply unpackString_app; auto).
  rewrite bind_app with (a := w) by (apply unpackVal_le32; auto).
  rewrite bind_app with (a := ht) by (apply unpackVal_le32; auto).
  rewrite bind_app with (a := n) by (apply unpackVal_le32; auto).
  rewrite bind_app with (a := rate) by (apply unpackVal_le32_int32; auto).
  rewrite bind_app with (a := fl) by (apply unpackVal_le32; auto).
  rewrite bind_app with (a := asz) by (apply unpackSlice_le32; auto).
  rewrite bind_app with (a := ts) by (apply unpackVal_le32; auto).
  rewrite bind_app with (a := mm) by (apply unpackVal_le32; auto).
  rewrite bind_app with (a := mc) by (apply unpackVal_le32; auto).
  rewrite bind_app with (a := fu) by (apply unpackVal_le32; auto).
  rewrite bind_app with (a := ty) by (apply unpackVal_le32; auto).
  rewrite bind_app with (a := ti) by (apply unpackSlice_le32; auto).
  rewrite bind_app with (a := padding) by (apply unpackVal_le32; auto).
  rewrite bind_app with (a := fs) by (apply unpackSlice_le32; auto).
  rewrite bind_app with (a := ft) by (apply unpackSlice_bytes; auto).
  reflexivity.
Qed.

(** ** Further properties of the decoder *)

Lemma chunks_seq (size len : nat) (buf : list byte) :
  struc.chunks size len buf
  = map (fun i => firstn size (skipn (i * size) buf)) (seq 0 len).
Proof.
  revert buf. induction len as [ | n IH]; intros buf; [reflexivity | ].
  cbn [struc.chunks seq map]. rewrite IH, <- seq_shift, map_map.
  f_equal. apply map_ext. intros i.
  rewrite List.skipn_skipn. f_equal. f_equal. simpl. lia.
Qed.

Lemma slice_chunks (t : struc.Type_) (o : struc.ByteOrder) (k : struc.Kind)
      (s : list byte) (off len : nat) :
  map (fun c => struc.store Int.Target64 k (struc.number t o c))
      (struc.chunks (struc.Size t) len
         (firstn (len * struc.Size t) (skipn off s)))
  = sliceAt t o k s off len.
Proof.
  unfold sliceAt, elementAt. rewrite chunks_seq, map_map.
  apply map_ext_in. intros i Hi. apply in_seq in Hi.
  do 2 f_equal.
  rewrite List.skipn_firstn_comm, List.firstn_firstn, List.skipn_skipn.
  rewrite <- Nat.mul_sub_distr_r.
  rewrite Nat.min_l by (destruct (len - i)%nat eqn:E; [lia | simpl; lia]).
  rewrite (Nat.add_comm (i * struc.Size t) off). reflexivity.
Qed.

(** [Unpack] is the decoder by offsets: it reads [bytesRead] bytes and
    returns [decodeAt]. *)
Lemma Unpack_decodeAt (s : list byte) :
  reads (Unpack Int.Target64) s 0 (bytesRead (frameCount s)) (decodeAt s).
Proof.
  assert (H : exists h, reads (Unpack Int.Target64) s 0 (bytesRead (frameCount s)) h
                        /\ h = decodeAt s).
  { eexists. split.
    - eapply reads_length.
      + unfold Unpack. do 15 reads_step. apply reads_ret.
      + unfold bytesRead, frameCount, struc.sizefrom.
        cbn [struc.Size Nat.add]. lia.
    - rewrite !slice_chunks. reflexivity. }
  destruct H as [h [Hr ->]]. exact Hr.
Qed.

Lemma validSignature_true (sig : string) :
  validSignature sig = true -> sig = "SMK2"%string \/ sig = "SMK4"%string.
Proof.
  unfold validSignature. intros H. apply orb_true_iff in H.
  destruct H as [H | H]; apply String.eqb_eq in H; auto.
Qed.

(** A parsed header is the one the stream holds at the fixed offsets:
    signature at 0, width 4, height 8, frame count 12, frame rate 16, flags
    20 (most significant byte first), buffer sizes 24, size hints 52 to 68,
    track descriptors 72, frame sizes 100, frame types 100 + 4 * NFrames. *)
Theorem Parse_decodeAt (rd : Reader) (f : File) :
  Parse Int.Target64 rd = Ok f -> Header f = decodeAt (readerBytes rd).
Proof.
  intros E. destruct (Parse_ok_inv rd f E) as [U _].
  destruct (Unpack_decodeAt (readerBytes rd)) as [Hok Herr].
  destruct (Nat.lt_ge_cases (List.length (readerBytes rd))
              (bytesRead (frameCount (readerBytes rd)))) as [Hlt | Hge].
  - destruct (Herr Hlt (Nat.le_0_l _)) as [e [E' _]].
    cbn [skipn] in E'. congruence.
  - specialize (Hok Hge). cbn [skipn] in Hok. congruence.
Qed.

Lemma Parse_decodeAt_witness :
  Parse Int.Target64 sampleReader = Ok sampleFile
  /\ Header sampleFile = decodeAt (readerBytes sampleReader).
Proof.
  split; [vm_compute; reflexivity | ].
  apply (Parse_decodeAt sampleReader sampleFile). vm_compute. reflexivity.
Defined.

(** A parsed file has a recognised signature, its reader stands right after
    the [bytesRead] bytes of the header, and its closer is the one of the
    reader given to [Parse]. *)
Theorem Parse_ok_reader (rd : Reader) (f : File) :
  Parse Int.Target64 rd = Ok f ->
  (Signature (Header f) = "SMK2"%string \/ Signature (Header f) = "SMK4"%string)
  /\ r f = skipn (bytesRead (NFrames (Header f))) (readerBytes rd)
  /\ List.length (readerBytes rd)
     = (bytesRead (NFrames (Header f)) + List.length (r f))%nat
  /\ c f = readerCloser rd.
Proof.
  intros E. destruct (Parse_ok_inv rd f E) as [U [V C]].
  destruct (Unpack_ok_inv _ _ _ U) as [Hlen [Hrest [_ [Hn _]]]].
  rewrite Hn. split; [apply validSignature_true; exact V | ].
  split; [exact Hrest | ]. split; [ | exact C].
  rewrite Hrest, List.length_skipn. lia.
Qed.

Lemma Parse_ok_reader_witness :
  Parse Int.Target64 sampleReader = Ok sampleFile
  /\ List.length (readerBytes sampleReader)
     = (bytesRead (NFrames (Header sampleFile)) + List.length (r sampleFile))%nat.
Proof.
  split; [vm_compute; reflexivity | ].
  apply (Parse_ok_reader sampleReader sampleFile). vm_compute. reflexivity.
Defined.

(** The outcome of [Parse] is decided by the length of the stream and its
    signature: too short for its frame count, a truncation error; long
    enough with an unknown signature, the signature error; long enough with
    a known signature, a file. *)
Theorem Parse_outcome (rd : Reader) :
  ((List.length (readerBytes rd) < bytesRead (frameCount (readerBytes rd)))%nat
   /\ exists e : error, Parse Int.Target64 rd = Err e /\ truncation e)
  \/ ((bytesRead (frameCount (readerBytes rd)) <= List.length (readerBytes rd))%nat
      /\ validSignature (signatureOf (readerBytes rd)) = false
      /\ Parse Int.Target64 rd = Err (ErrInvalidSignature (signatureOf (readerBytes rd))))
  \/ ((bytesRead (frameCount (readerBytes rd)) <= List.length (readerBytes rd))%nat
      /\ validSignature (signatureOf (readerBytes rd)) = true
      /\ exists f : File, Parse Int.Target64 rd = Ok f).
Proof.
  destruct (Nat.lt_ge_cases (List.length (readerBytes rd))
              (bytesRead (frameCount (readerBytes rd)))) as [Hlt | Hge].
  - left. split; [exact Hlt | apply Parse_truncated; exact Hlt].
  - right. pose proof (Parse_complete rd Hge) as P.
    destruct (validSignature (signatureOf (readerBytes rd))) eqn:V.
    + right. split; [exact Hge | ]. split; [reflexivity | ].
      destruct (Unpack_complete _ Hge) as [h [U _]]. rewrite U in P.
      eexists. exact P.
    + left. auto.
Qed.

(** *** Bytes after the header *)

Lemma stable_ret {A} (a : A) : stable (ret a).
Proof. intros s t a' rest E. unfold ret in *. injection E as <- <-. reflexivity. Qed.

Lemma stable_bind {A B} (m : Unpacker A) (k : A -> Unpacker B) :
  stable m -> (forall a, stable (k a)) -> stable (bind m k).
Proof.
  intros Hm Hk s t b rest E. unfold bind in *.
  destruct (m s) as [[a s'] | e | ] eqn:M; [ | discriminate | discriminate].
  rewrite (Hm _ t _ _ M). apply Hk. exact E.
Qed.

Lemma stable_readFull (n : nat) : stable (struc.readFull n).
Proof.
  intros s t x rest E. unfold struc.readFull in *.
  destruct n as [ | n']; [injection E as <- <-; reflexivity | ].
  destruct s as [ | b s']; [discriminate | ].
  remember (b :: s') as s eqn:Es. remember (S n') as n eqn:En.
  destruct (Nat.ltb (List.length s) n) eqn:L; [discriminate | ].
  apply Nat.ltb_ge in L. injection E as <- <-.
  assert (Hs : s ++ t = b :: (s' ++ t)) by (subst s; reflexivity).
  rewrite Hs at 1.
  assert (L' : Nat.ltb (List.length (s ++ t)) n = false).
  { apply Nat.ltb_ge. rewrite List.length_app. lia. }
  rewrite L'. rewrite List.firstn_app, List.skipn_app.
  replace (n - List.length s)%nat with 0%nat by lia.
  cbn [firstn skipn]. rewrite app_nil_r. reflexivity.
Qed.

Lemma stable_panic {A} : stable (@panic A).
Proof. intros s t a rest E. discriminate. Qed.

Lemma stable_unpackVal (tg : Int.Target) (t : struc.Type_) (o : struc.ByteOrder)
      (k : struc.Kind) :
  stable (struc.unpackVal tg t o k).
Proof.
  apply stable_bind; [apply stable_readFull | intros; apply stable_ret].
Qed.

Lemma stable_unpackSlice (tg : Int.Target) (t : struc.Type_) (o : struc.ByteOrder)
      (k : struc.Kind) (length : Z) :
  stable (struc.unpackSlice tg t o k length).
Proof.
  unfold struc.unpackSlice.
  destruct (_ <? 0); [apply stable_panic | ].
  apply stable_bind; [apply stable_readFull | intros buf].
  destruct (length <=? 0); [apply stable_ret | ].
  destruct (_ =? _); [apply stable_ret | apply stable_panic].
Qed.

Lemma stable_unpackString (len : nat) : stable (struc.unpackString len).
Proof.
  apply stable_bind; [apply stable_readFull | intros; apply stable_ret].
Qed.

Lemma stable_Unpack (tg : Int.Target) : stable (Unpack tg).
Proof.
  unfold Unpack.
  repeat (apply stable_bind;
          [ first [ apply stable_unpackVal | apply stable_unpackSlice
                  | apply stable_unpackString ]
          | intros ? ]).
  apply stable_ret.
Qed.

Lemma stable_parseFileHeader (tg : Int.Target) : stable (parseFileHeader tg).
Proof.
  unfold parseFileHeader. apply stable_bind; [apply stable_Unpack | ].
  intros h. destruct (validSignature (Signature h)); [apply stable_ret | ].
  intros s t a rest E. discriminate.
Qed.

(** What follows the header has no effect on the header parsed: with more
    bytes after an accepted stream, [Parse] returns the same header and
    leaves the added bytes in the reader. *)
Theorem Parse_trailing (tg : Int.Target) (rd : Reader) (f : File)
        (tail : list byte) :
  Parse tg rd = Ok f ->
  Parse tg (mkReader (readerBytes rd ++ tail) (readerCloser rd))
  = Ok (mkFile (Header f) (r f ++ tail) (c f)).
Proof.
  intros E. unfold Parse in *. cbn [readerBytes readerCloser].
  destruct (parseFileHeader tg (readerBytes rd)) as [[h rest] | e | ] eqn:P;
    [ | discriminate | discriminate].
  injection E as <-. cbn [Header r c].
  rewrite (stable_parseFileHeader tg _ tail _ _ P). reflexivity.
Qed.

Lemma Parse_trailing_witness :
  Parse Int.Target64 sampleReader = Ok sampleFile
  /\ Parse Int.Target64 (mkReader (readerBytes sampleReader ++ [x01; x02]) None)
     = Ok (mkFile sampleHeader [x01; x02] None).
Proof.
  split; [vm_compute; reflexivity | ].
  apply (Parse_trailing Int.Target64 sampleReader sampleFile [x01; x02]).
  vm_compute. reflexivity.
Defined.

Lemma frameCount_prefix (s : list byte) (k : nat) :
  (16 <= k)%nat -> frameCount (firstn k s) = frameCount s.
Proof.
  intros Hk. unfold frameCount. do 2 f_equal.
  rewrite List.skipn_firstn_comm, List.firstn_firstn.
  rewrite Nat.min_l by lia. reflexivity.
Qed.

Lemma frameCount_short (s : list byte) :
  (List.length s < 16)%nat -> frameCount s = 0.
Proof.
  intros Hs. unfold frameCount.
  assert (L : (List.length (firstn 4 (skipn 12 s)) < 4)%nat).
  { rewrite List.length_firstn, List.length_skipn. lia. }
  destruct (firstn 4 (skipn 12 s)) as [ | b0 [ | b1 [ | b2 [ | b3 l]]]];
    try reflexivity.
  simpl in L. lia.
Qed.

(** No stream cut short of the bytes an accepted header takes is accepted:
    every such prefix fails with a truncation error. *)
Theorem Parse_prefix_fails (rd : Reader) (f : File) (k : nat) :
  Parse Int.Target64 rd = Ok f ->
  (k < bytesRead (NFrames (Header f)))%nat ->
  exists e : error,
    Parse Int.Target64 (mkReader (firstn k (readerBytes rd)) (readerCloser rd)) = Err e
    /\ truncation e.
Proof.
  intros E Hk. destruct (Parse_ok_inv rd f E) as [U _].
  destruct (Unpack_ok_inv _ _ _ U) as [Hlen [_ [_ [Hn _]]]].
  rewrite Hn in Hk. apply Parse_truncated. cbn [readerBytes].
  rewrite List.length_firstn, Nat.min_l by lia.
  destruct (Nat.lt_ge_cases k 16) as [Hs | Hs].
  - rewrite frameCount_short
      by (rewrite List.length_firstn; lia).
    unfold bytesRead. lia.
  - rewrite frameCount_prefix by exact Hs. exact Hk.
Qed.

Lemma Parse_prefix_fails_witness :
  Parse Int.Target64 sampleReader = Ok sampleFile
  /\ exists e : error,
       Parse Int.Target64 (mkReader (firstn 104 (readerBytes sampleReader)) None) = Err e
       /\ truncation e.
Proof.
  split; [vm_compute; reflexivity | ].
  apply (Parse_prefix_fails sampleReader sampleFile 104);
    [vm_compute; reflexivity | vm_compute; lia].
Defined.

Lemma wellFormed_sampleHeader : wellFormed sampleHeader.
Proof.
  unfold wellFormed, sampleHeader, Int.uint32, Int.int32, Int.uint8.
  cbn [Signature Width Height NFrames FrameRate_ Flags AudioSize TreesSize
       MMapSize MClrSize FullSize TypeSize TrackInfo_ FrameSizes FrameTypes].
  repeat match goal with
         | |- _ /\ _ => split
         | |- Forall _ _ => constructor
         end; try reflexivity; lia.
Defined.

Lemma Parse_encodeRead_witness :
  wellFormed sampleHeader
  /\ validSignature (Signature sampleHeader) = true
  /\ Parse Int.Target64 (mkReader (encodeRead sampleHeader ++ [x01]) None)
     = Ok (mkFile sampleHeader [x01] None).
Proof.
  split; [exact wellFormed_sampleHeader | ]. split; [reflexivity | ].
  apply (Parse_encodeRead sampleHeader [x01] None);
    [exact wellFormed_sampleHeader | reflexivity].
Defined.

(** ** Further properties of the track descriptors *)

(** Whatever the descriptor, the sample rate is its low 24 bits, below
    2^24, the bit rate is 8 or 16 and the number of channels 1 or 2. *)
Theorem TrackInfo_ranges (tg : Int.Target) (u : TrackInfo) :
  SampleRate tg u = u mod 2 ^ 24
  /\ 0 <= SampleRate tg u < 2 ^ 24
  /\ (BitRate u = 8 \/ BitRate u = 16)
  /\ (NChannels u = 1 \/ NChannels u = 2).
Proof.
  assert (E : SampleRate tg u = u mod 2 ^ 24).
  { rewrite SampleRate_land.
    change 0xFFFFFF with (Z.ones 24). apply Z.land_ones. lia. }
  split; [exact E | ]. split.
  - rewrite E. apply Z.mod_pos_bound. reflexivity.
  - unfold BitRate, NChannels.
    destruct (Z.land u 0x20000000 =? 0), (Z.land u 0x10000000 =? 0);
      cbn [negb]; auto.
Qed.

Lemma testbit_b2z_shift (b : bool) (k i : Z) :
  0 <= k -> 0 <= i -> Z.testbit (Z.shiftl (Z.b2z b) k) i = b && (i =? k).
Proof.
  intros Hk Hi. rewrite Z.shiftl_spec by exact Hi.
  destruct (Z.eqb_spec i k) as [-> | N].
  - rewrite Z.sub_diag, Z.b2z_bit0, andb_true_r. reflexivity.
  - rewrite andb_false_r. destruct b; cbn [Z.b2z]; [ | apply Z.bits_0].
    destruct (Z.lt_ge_cases (i - k) 0) as [Hlt | Hge].
    + apply Z.testbit_neg_r. exact Hlt.
    + change 1 with (2 ^ 0). apply Z.pow2_bits_false. lia.
Qed.

Lemma testbit_high (rate i : Z) :
  0 <= rate < 2 ^ 24 -> 24 <= i -> Z.testbit rate i = false.
Proof.
  intros Hr Hi. rewrite <- (Z.mod_small rate (2 ^ 24)) by exact Hr.
  apply Z.mod_pow2_bits_high. lia.
Qed.

Lemma testbit_trackInfoOf (cp au sx st : bool) (rate i : Z) :
  0 <= i ->
  Z.testbit (trackInfoOf cp au sx st rate) i
  = (cp && (i =? 31)) || (au && (i =? 30)) || (sx && (i =? 29))
    || (st && (i =? 28)) || Z.testbit rate i.
Proof.
  intros Hi. unfold trackInfoOf.
  rewrite !Z.lor_spec, !testbit_b2z_shift by lia. reflexivity.
Qed.

(** A descriptor put together from its parts gives the parts back, and is
    read as version 2 sound. *)
Theorem TrackInfo_of_parts (tg : Int.Target) (cp au sx st : bool) (rate : Z) :
  0 <= rate < 2 ^ 24 ->
  let u := trackInfoOf cp au sx st rate in
  IsCompressed u = cp
  /\ HasAudioData u = au
  /\ BitRate u = (if sx then 16 else 8)
  /\ NChannels u = (if st then 2 else 1)
  /\ SampleRate tg u = rate
  /\ IsVersion2 u = true.
Proof.
  intros Hr u.
  assert (B : forall i, 24 <= i ->
              Z.testbit u i
              = (cp && (i =? 31)) || (au && (i =? 30)) || (sx && (i =? 29))
                || (st && (i =? 28))).
  { intros i Hi. subst u. rewrite testbit_trackInfoOf by lia.
    rewrite (testbit_high rate i Hr Hi). apply orb_false_r. }
  assert (S : SampleRate tg u = rate).
  { rewrite SampleRate_land.
    apply Z.bits_inj'. intros i Hi. rewrite Z.land_spec.
    change 0xFFFFFF with (Z.ones 24).
    destruct (Z.lt_ge_cases i 24) as [Hlt | Hge].
    - rewrite Z.ones_spec_low, andb_true_r by lia.
      subst u. rewrite testbit_trackInfoOf by lia.
      destruct (Z.eqb_spec i 31), (Z.eqb_spec i 30), (Z.eqb_spec i 29),
               (Z.eqb_spec i 28); try lia.
      rewrite !andb_false_r. reflexivity.
    - rewrite Z.ones_spec_high, andb_false_r by lia.
      symmetry. apply testbit_high; assumption. }
  unfold IsCompressed, HasAudioData, BitRate, NChannels, IsVersion2.
  change 0x80000000 with (2 ^ 31). change 0x40000000 with (2 ^ 30).
  change 0x20000000 with (2 ^ 29). change 0x10000000 with (2 ^ 28).
  rewrite !land_pow2_testbit by lia. rewrite land_0xC000000.
  rewrite (B 31), (B 30), (B 29), (B 28), (B 27), (B 26) by lia.
  rewrite S. clear B S u.
  destruct cp, au, sx, st; repeat split; reflexivity.
Qed.

Lemma TrackInfo_of_parts_witness :
  0 <= 44100 < 2 ^ 24
  /\ IsCompressed (trackInfoOf true true true false 44100) = true
  /\ SampleRate Int.Target32 (trackInfoOf true true true false 44100) = 44100.
Proof.
  assert (R : 0 <= 44100 < 2 ^ 24) by (split; [lia | reflexivity]).
  split; [exact R | ].
  destruct (TrackInfo_of_parts Int.Target32 true true true false 44100 R)
    as [H1 [_ [_ [_ [H5 _]]]]].
  split; [exact H1 | exact H5].
Defined.

(** ** Further properties of the frame types *)

Lemma orAll_flagsSet_all :
  forallb (fun t => orAll (flagsSet t) =? t) (map Z.of_nat (seq 0 256)) = true.
Proof. vm_compute. reflexivity. Qed.

(** The eight constants account for every bit of a frame type: a frame type
    is the bitwise or of the constants set in it. *)
Theorem FrameType_or_of_flags (t : FrameType) :
  Int.uint8 t -> orAll (flagsSet t) = t.
Proof.
  intros [H0 H1]. change (2 ^ 8) with 256 in H1.
  pose proof orAll_flagsSet_all as A. rewrite forallb_forall in A.
  apply Z.eqb_eq. apply A.
  apply in_map_iff. exists (Z.to_nat t). split; [lia | ].
  apply in_seq. lia.
Qed.

Lemma FrameType_or_of_flags_witness :
  Int.uint8 0x82 /\ orAll (flagsSet 0x82) = 0x82.
Proof.
  assert (R : Int.uint8 0x82) by (unfold Int.uint8; split; [lia | reflexivity]).
  split; [exact R | apply (FrameType_or_of_flags 0x82 R)].
Defined.

(** ** Further properties of the frame rate *)

Lemma FPS_signbit_witness :
  Int.int32 (-100000) /\ -100000 <> minInt32
  /\ float64_signbit (FPS (-100000)) = false.
Proof.
  assert (R : Int.int32 (-100000)) by (unfold Int.int32; lia).
  assert (N : -100000 <> minInt32) by (unfold minInt32; lia).
  split; [exact R | ]. split; [exact N | ].
  apply (FPS_signbit (-100000) R N).
Defined.

Lemma shr_1_nonneg (mrs : shr_record) : 0 <= shr_m mrs -> 0 <= shr_m (shr_1 mrs).
Proof.
  destruct mrs as [m rb sb]. cbn [shr_m]. intros H.
  destruct m as [ | p | p]; [simpl; lia | | lia].
  destruct p; simpl; lia.
Qed.

Lemma iter_shr_1_nonneg (p : positive) (mrs : shr_record) :
  0 <= shr_m mrs -> 0 <= shr_m (iter_pos shr_1 p mrs).
Proof.
  revert mrs. induction p as [p IH | p IH | ]; intros mrs H; cbn [iter_pos].
  - apply IH, IH, shr_1_nonneg, H.
  - apply IH, IH, H.
  - apply shr_1_nonneg, H.
Qed.

Lemma shr_fexp_nonneg (m e : Z) (l : location) :
  0 <= m -> 0 <= shr_m (fst (shr_fexp float64_prec float64_emax m e l)).
Proof.
  intros H. unfold shr_fexp, shr.
  assert (H0 : 0 <= shr_m (shr_record_of_loc m l)).
  { destruct l as [ | [ | | ]]; exact H. }
  destruct (fexp float64_prec float64_emax (Zdigits2 m + e) - e) as [ | p | p];
    cbn [fst]; [exact H0 | apply iter_shr_1_nonneg; exact H0 | exact H0].
Qed.

Lemma round_nearest_even_nonneg (m : Z) (l : location) :
  0 <= m -> 0 <= round_nearest_even m l.
Proof.
  intros H. unfold round_nearest_even.
  destruct l as [ | [ | | ]]; try lia. destruct (Z.even m); lia.
Qed.

Lemma binary_round_aux_not_NaN (sx : bool) (mx ex : Z) (lx : location) :
  0 <= mx ->
  float64_isNaN (binary_round_aux float64_prec float64_emax sx mx ex lx) = false.
Proof.
  intros H. unfold binary_round_aux.
  pose proof (shr_fexp_nonneg mx ex lx H) as H1.
  destruct (shr_fexp float64_prec float64_emax mx ex lx) as [mrs' e'].
  cbn [fst] in H1.
  pose proof (shr_fexp_nonneg _ e' loc_Exact
                (round_nearest_even_nonneg _ (loc_of_shr_record mrs') H1)) as H2.
  destruct (shr_fexp float64_prec float64_emax _ e' loc_Exact) as [mrs'' e''].
  cbn [fst] in H2.
  destruct (shr_m mrs'') as [ | m | m]; [reflexivity | | lia].
  destruct (e'' <=? float64_emax - float64_prec); reflexivity.
Qed.

Lemma float64_of_int_not_NaN (n : Z) : float64_isNaN (float64_of_int n) = false.
Proof.
  unfold float64_of_int, binary_normalize.
  destruct n as [ | m | m]; [reflexivity | | ];
    unfold binary_round; destruct (shl_align m 0 _) as [mz ez];
    apply binary_round_aux_not_NaN; lia.
Qed.

Lemma float64_div_finite_not_NaN (sx : bool) (mx : positive) (ex : Z) (y : float64) :
  float64_isNaN y = false ->
  float64_isNaN (float64_div (S754_finite sx mx ex) y) = false.
Proof.
  intros Hy. unfold float64_div, SFdiv.
  destruct y as [sy | sy | | sy my ey]; try reflexivity; [discriminate | ].
  unfold SFdiv_core_binary.
  set (sh := ex - ey - _).
  set (m' := match sh with Z0 => Z.pos mx | Z.pos _ => Z.shiftl (Z.pos mx) sh
                      | Z.neg _ => 0 end).
  assert (Hm : 0 <= m').
  { subst m'. destruct sh; try lia. apply Z.shiftl_nonneg. lia. }
  pose proof (Z.div_pos m' (Z.pos my) Hm eq_refl) as Hq.
  unfold Z.div in Hq.
  destruct (Z.div_eucl m' (Z.pos my)) as [q rm]. cbn [fst] in Hq.
  apply binary_round_aux_not_NaN. exact Hq.
Qed.

(** [FPS] never returns a NaN, whatever the rate. *)
Theorem FPS_not_NaN (rate : FrameRate) : float64_isNaN (FPS rate) = false.
Proof.
  unfold FPS.
  destruct (0 <? rate); [ | destruct (rate <? 0)].
  - change (float64_of_int 1000)
      with (S754_finite false 8796093022208000 (-43)).
    apply float64_div_finite_not_NaN, float64_of_int_not_NaN.
  - change (float64_of_int 100000)
      with (S754_finite false 6871947673600000 (-36)).
    apply float64_div_finite_not_NaN, float64_of_int_not_NaN.
  - apply float64_of_int_not_NaN.
Qed.

(** ** Further properties of [Close] and [ParseFile] *)

Lemma closeN_errors (n : nat) (f : File) (cl : Closer) :
  c f = Some cl -> snd (closeN n f) = snd (callCloseN n cl).
Proof.
  revert f cl. induction n as [ | n IH]; intros f cl C; [reflexivity | ].
  cbn [closeN callCloseN]. unfold Close. rewrite C.
  destruct (callClose cl) as [cl' e].
  specialize (IH (mkFile (Header f) (r f) (Some cl')) cl' eq_refl).
  destruct (closeN n _) as [f'' es]. destruct (callCloseN n cl') as [cl'' es'].
  cbn [snd] in *. rewrite IH. reflexivity.
Qed.

(** Any number of calls of [Close] leave the header and the reader of a file
    as they are; each call is one call of the closer, on the state the call
    before left, and returns what the closer returns. *)
Theorem closeN_frame (n : nat) (f : File) :
  Header (fst (closeN n f)) = Header f
  /\ r (fst (closeN n f)) = r f
  /\ List.length (snd (closeN n f)) = n
  /\ (forall cl : Closer, c f = Some cl ->
      c (fst (closeN n f)) = Some (fst (callCloseN n cl))
      /\ snd (closeN n f) = snd (callCloseN n cl)).
Proof.
  revert f. induction n as [ | n IH]; intros f.
  - cbn [closeN callCloseN fst snd List.length]. auto.
  - cbn [closeN callCloseN]. unfold Close at 1 2 3 4 5.
    destruct (c f) as [cl | ] eqn:C.
    + destruct (callClose cl) as [cl' e] eqn:E1.
      specialize (IH (mkFile (Header f) (r f) (Some cl'))).
      destruct (closeN n (mkFile (Header f) (r f) (Some cl'))) as [f'' es].
      cbn [fst snd Header r c List.length] in *.
      destruct IH as [H1 [H2 [H3 H4]]].
      split; [exact H1 | ]. split; [exact H2 | ]. split; [lia | ].
      intros cl0 E0. injection E0 as <-. rewrite E1.
      destruct (H4 cl' eq_refl) as [H5 H6].
      destruct (callCloseN n cl') as [cl'' es']. cbn [fst snd] in *.
      rewrite H5, H6. auto.
    + specialize (IH f). destruct (closeN n f) as [f'' es].
      cbn [fst snd List.length] in *.
      destruct IH as [H1 [H2 [H3 _]]].
      split; [exact H1 | ]. split; [exact H2 | ]. split; [lia | ].
      intros cl0 E0. discriminate.
Qed.

Lemma callCloseN_osFile (n : nat) :
  snd (callCloseN (S n) osFile) = None :: repeat (Some ErrClosed) n.
Proof.
  cbn [callCloseN]. unfold callClose at 1.
  cbn [osFile closerClose closerState CloserState].
  set (closed := mkCloser bool true _).
  assert (G : forall m, snd (callCloseN m closed) = repeat (Some ErrClosed) m).
  { induction m as [ | m IH]; [reflexivity | ].
    cbn [callCloseN]. unfold callClose at 1.
    cbn [closed closerClose closerState CloserState]. fold closed.
    destruct (callCloseN m closed) as [cl'' es]. cbn [snd] in *.
    rewrite IH. reflexivity. }
  specialize (G n). destruct (callCloseN n closed) as [cl'' es].
  cbn [snd] in *. rewrite G. reflexivity.
Qed.

(** A file returned by [ParseFile] holds the header of the file at the path
    and the opened file as its closer: the first [Close] succeeds and every
    later one returns [os.ErrClosed]. *)
Theorem ParseFile_Close (fs : FileSystem) (path : string) (f : File) (n : nat) :
  ParseFile Int.Target64 fs path = Ok f ->
  (exists bytes : list byte,
      fs path = Some bytes /\ Header f = decodeAt bytes)
  /\ c f = Some osFile
  /\ snd (closeN (S n) f) = None :: repeat (Some ErrClosed) n.
Proof.
  unfold ParseFile. intros E.
  destruct (fs path) as [bytes | ] eqn:F; [ | discriminate].
  destruct (Parse_ok_inv _ f E) as [U [_ C]]. cbn [readerCloser readerBytes] in *.
  split; [ | split; [exact C | ]].
  - exists bytes. split; [reflexivity | ].
    destruct (Unpack_decodeAt bytes) as [Hok Herr].
    destruct (Nat.lt_ge_cases (List.length bytes) (bytesRead (frameCount bytes)))
      as [Hlt | Hge].
    + destruct (Herr Hlt (Nat.le_0_l _)) as [e [E' _]].
      cbn [skipn] in E'. congruence.
    + specialize (Hok Hge). cbn [skipn] in Hok. congruence.
  - rewrite (closeN_errors (S n) f osFile C). apply callCloseN_osFile.
Qed.

Lemma ParseFile_Close_witness :
  ParseFile Int.Target64 sampleFS "sample.smk" = Ok (mkFile sampleHeader [] (Some osFile))
  /\ snd (closeN 3 (mkFile sampleHeader [] (Some osFile)))
     = [None; Some ErrClosed; Some ErrClosed].
Proof.
  split; [vm_compute; reflexivity | ].
  apply (ParseFile_Close sampleFS "sample.smk"
           (mkFile sampleHeader [] (Some osFile)) 2).
  vm_compute. reflexivity.
Defined.
